(** * awesomailer: the batch mail-merge dispatcher of [main.py]

    A shallow embedding of the composition pipeline ([load_templates],
    [expand_attachments], [build_message]), of the delivery ledger
    ([read_sent_index], [append_sent_record]) and of the live dispatch loop
    of [send_batch], followed by the properties of the design document that
    are settled against it.

    Conventions of the embedding.
    - A Python [str] is a [string]; the character classes of [str.strip],
      [str.lower] and [str.splitlines] are the ASCII ones (a non-ASCII
      character is a run of bytes above 127, which none of them touches).
    - A CSV row ([Dict[str, str]] from [csv.DictReader]) is a
      [gmap string (option string)]: a column may be absent, or present with
      the value [None] (a short row), or present with a string.
    - A raised exception is [Raise msg], with [msg] the text of [str(e)].
    - The file system, the process environment, the SMTP session and the
      wall clock are read through the record [World].
    - [send_batch] is the live path ([dry_run=False]); the writes to the
      ledger and the pause between two sends are taken not to raise, and
      the dashboard is represented by the index it is rendered from. *)

From stdpp Require Import gmap strings list sorting pretty.
From Stdlib Require Import ZArith Ascii.

Local Open Scope Z_scope.

(** ** Python string methods *)

Module PyStr.

(** [str.isspace] on one ASCII character: TAB..CR, FS..US and the space. *)
Definition isspace (c : ascii) : bool :=
  let n := nat_of_ascii c in
  ((9 <=? n)%nat && (n <=? 13)%nat)
  || ((28 <=? n)%nat && (n <=? 32)%nat).

Fixpoint lstrip (s : string) : string :=
  match s with
  | String c s' => if isspace c then lstrip s' else s
  | EmptyString => EmptyString
  end.

Definition rstrip (s : string) : string := String.rev (lstrip (String.rev s)).

(** [s.strip()] *)
Definition strip (s : string) : string := rstrip (lstrip s).

Definition lower_char (c : ascii) : ascii :=
  let n := nat_of_ascii c in
  if ((65 <=? n)%nat && (n <=? 90)%nat) then ascii_of_nat (n + 32) else c.

(** [s.lower()] *)
Fixpoint lower (s : string) : string :=
  match s with
  | String c s' => String (lower_char c) (lower s')
  | EmptyString => EmptyString
  end.

(** [s.replace(old, new)] for one-character [old] and [new]. *)
Fixpoint replace (old new : ascii) (s : string) : string :=
  match s with
  | String c s' => String (if Ascii.eqb c old then new else c) (replace old new s')
  | EmptyString => EmptyString
  end.

(** [s.split(sep)] for a one-character separator; never the empty list. *)
Fixpoint split (sep : ascii) (s : string) : list string :=
  match s with
  | EmptyString => [EmptyString]
  | String c s' =>
      if Ascii.eqb c sep then EmptyString :: split sep s'
      else match split sep s' with
           | h :: t => String c h :: t
           | [] => [String c EmptyString]
           end
  end.

(** [c in s] for one character. *)
Fixpoint contains (c : ascii) (s : string) : bool :=
  match s with
  | String d s' => Ascii.eqb d c || contains c s'
  | EmptyString => false
  end.

(** Truth value of a string: non-empty. *)
Definition truthy (s : string) : bool :=
  match s with EmptyString => false | _ => true end.

(** Line boundaries of [str.splitlines]: LF, VT, FF, CR, FS, GS, RS. *)
Definition is_linebreak (c : ascii) : bool :=
  let n := nat_of_ascii c in
  ((10 <=? n)%nat && (n <=? 13)%nat)
  || ((28 <=? n)%nat && (n <=? 30)%nat).

(** [s.splitlines()]; [after_cr] tells that the previous character was a
    CR, so that a LF right after it belongs to the same boundary. *)
Fixpoint splitlines_from (after_cr : bool) (s : string) : list string :=
  match s with
  | EmptyString => []
  | String c s' =>
      if after_cr && Ascii.eqb c "010" then splitlines_from false s'
      else if is_linebreak c
           then EmptyString :: splitlines_from (Ascii.eqb c "013") s'
           else match splitlines_from false s' with
                | h :: t => String c h :: t
                | [] => [String c EmptyString]
                end
  end.

Definition splitlines (s : string) : list string := splitlines_from false s.

(** [s.startswith("/")] and [s.endswith("/")] *)
Definition startswith_sep (s : string) : bool :=
  match s with String "/" _ => true | _ => false end.

Definition endswith_sep (s : string) : bool := startswith_sep (String.rev s).

End PyStr.


(** ** [os.path] on POSIX *)

Module PyPath.

(** [os.path.join(a, b)]: an absolute [b] replaces [a]; no separator is
    added after an empty [a] or one that already ends with it. *)
Definition join (a b : string) : string :=
  if PyStr.startswith_sep b then b
  else if negb (PyStr.truthy a) || PyStr.endswith_sep a then a +:+ b
  else a +:+ "/" +:+ b.

(** [os.path.basename(p)]: what follows the last separator. *)
Definition basename (p : string) : string :=
  default EmptyString (last (PyStr.split "/" p)).

End PyPath.

(** ** Exceptions and the logging effect *)

Inductive Result (A : Type) : Type :=
| Ok (a : A)
| Raise (msg : string).
Arguments Ok {A} a.
Arguments Raise {A} msg.

Inductive Level := INFO | WARNING | ERROR.

Global Instance Result_ret : MRet Result := λ A a, Ok a.

Global Instance Result_bind : MBind Result := λ A B k r,
  match r with
  | Ok a => k a
  | Raise e => Raise e
  end.

(** A computation that writes log records and then returns or raises. *)
Definition Eff (A : Type) : Type := list (Level * string) * Result A.

Global Instance Eff_ret : MRet Eff := λ A a, ([], Ok a).

Global Instance Eff_bind : MBind Eff := λ A B k m,
  match m with
  | (l, Ok a) => let '(l', r) := k a in (l ++ l', r)
  | (l, Raise e) => (l, Raise e)
  end.

Definition raise {A} (msg : string) : Eff A := ([], Raise msg).
Definition log (lvl : Level) (msg : string) : Eff unit := ([(lvl, msg)], Ok tt).
Definition lift {A} (r : Result A) : Eff A := ([], r).

(** [try: m except Exception as e: h e] *)
Definition try_except {A} (m : Eff A) (h : string → Eff A) : Eff A :=
  match m with
  | (l, Ok a) => (l, Ok a)
  | (l, Raise e) => let '(l', r) := h e in (l ++ l', r)
  end.

(** ** CSV rows *)

Abbreviation Row := (gmap string (option string)).

(** [row.get(k)] *)
Definition row_get (row : Row) (k : string) : option string :=
  mjoin (row !! k).

(** [bool(row.get(k))] *)
Definition row_truthy (row : Row) (k : string) : bool :=
  match row_get row k with
  | Some s => PyStr.truthy s
  | None => false
  end.

(** [row.get(k) or d] *)
Definition get_or (row : Row) (k d : string) : string :=
  match row_get row k with
  | Some s => if PyStr.truthy s then s else d
  | None => d
  end.

(** ** [string.Template.safe_substitute]

    The scanner of [Template.pattern] as an automaton over the characters:
    [$$] is an escaped delimiter, [$name] and [${name}] are placeholders
    with [name] matching [[_a-z][_a-z0-9]*] without regard to case, and a
    [$] followed by anything else stands for itself.  A placeholder whose
    name is not a key of the mapping is left as written. *)

Module PyTemplate.

Definition is_alpha_ (c : ascii) : bool :=
  let n := nat_of_ascii c in
  ((65 <=? n)%nat && (n <=? 90)%nat) || ((97 <=? n)%nat && (n <=? 122)%nat)
  || (n =? 95)%nat.

Definition is_ident (c : ascii) : bool :=
  let n := nat_of_ascii c in
  is_alpha_ c || ((48 <=? n)%nat && (n <=? 57)%nat).

Inductive mode :=
| Text                       (* outside a placeholder *)
| Dollar                     (* after "$" *)
| Named (rname : string)     (* after "$" and an identifier, reversed *)
| Brace                      (* after "${" *)
| Braced (rname : string).   (* after "${" and an identifier, reversed *)

Definition subst_named (mapping : gmap string string) (rname : string) : string :=
  let name := String.rev rname in
  match mapping !! name with
  | Some v => v
  | None => "$" +:+ name
  end.

Definition subst_braced (mapping : gmap string string) (rname : string) : string :=
  let name := String.rev rname in
  match mapping !! name with
  | Some v => v
  | None => "${" +:+ name +:+ "}"
  end.

(** What the scanner has pending when the text ends or the match fails. *)
Definition flush (mapping : gmap string string) (m : mode) : string :=
  match m with
  | Text => ""
  | Dollar => "$"
  | Named r => subst_named mapping r
  | Brace => "${"
  | Braced r => "${" +:+ String.rev r
  end.

Fixpoint scan (mapping : gmap string string) (m : mode) (s : string) : string :=
  match s with
  | EmptyString => flush mapping m
  | String c s' =>
      let text := (* [c] read outside a placeholder *)
        if Ascii.eqb c "$" then scan mapping Dollar s'
        else String c (scan mapping Text s') in
      match m with
      | Text => text
      | Dollar =>
          if Ascii.eqb c "$" then "$" +:+ scan mapping Text s'
          else if is_alpha_ c then scan mapping (Named (String c "")) s'
          else if Ascii.eqb c "{" then scan mapping Brace s'
          else "$" +:+ text
      | Named r =>
          if is_ident c then scan mapping (Named (String c r)) s'
          else subst_named mapping r +:+ text
      | Brace =>
          if is_alpha_ c then scan mapping (Braced (String c "")) s'
          else "${" +:+ text
      | Braced r =>
          if is_ident c then scan mapping (Braced (String c r)) s'
          else if Ascii.eqb c "}" then subst_braced mapping r +:+ scan mapping Text s'
          else flush mapping m +:+ text
      end
  end.

Definition safe_substitute (text : string) (mapping : gmap string string) : string :=
  scan mapping Text text.

End PyTemplate.

(** [render(text, mapping)] *)
Definition render (text : string) (mapping : gmap string string) : string :=
  PyTemplate.safe_substitute text mapping.


(** ** The outside world *)

Record Attachment := {
  att_maintype : string;
  att_subtype : string;
  att_filename : string;
  att_data : string;
}.

(** An [EmailMessage]: the headers set through [msg[name] = value], in
    order, and the body parts.  The MIME headers that [set_content] and its
    siblings maintain (Content-Type and the like) are not listed. *)
Record EmailMessage := {
  headers : list (string * string);
  content : option string;
  alternative : option string;
  attachments : list Attachment;
}.

Record World := {
  (** [os.environ], after [load_dotenv] *)
  environ : gmap string string;
  (** [glob.glob(pattern)], in the order the library yields the matches *)
  glob : string → list string;
  (** [os.path.isfile], [os.path.isdir] *)
  isfile : string → bool;
  isdir : string → bool;
  (** [open(path, "r", encoding="utf-8").read()], newlines translated *)
  read_text : string → Result string;
  (** [open(path, "rb").read()] *)
  read_bytes : string → Result string;
  (** [mimetypes.guess_type(path)] *)
  guess_type : string → option string * option string;
  (** [list(csv.DictReader(...))] over [CONTACTS_CSV] *)
  contacts_csv : Result (list Row);
  (** the rows of [SENT_CSV]; [None] when the file does not exist *)
  sent_csv : option (list Row);
  (** [smtplib.SMTP_SSL(...)] followed by [server.login(...)] *)
  smtp_login : Result unit;
  (** [server.send_message(msg, from_addr, to_addrs)], by call number *)
  smtp_send_message : nat → EmailMessage → option string → list string → Result unit;
  (** [datetime.now().isoformat(timespec="seconds")], by ledger length *)
  now : nat → string;
}.

(** ** Module-level configuration (lines 16-39) *)

Section Mailer.

Variable w : World.

Definition SENDER_EMAIL : option string := environ w !! "SENDER_EMAIL".
Definition SENDER_NAME : string := default "Bot" (environ w !! "SENDER_NAME").
Definition APP_PASSWORD : option string := environ w !! "APP_PASSWORD".
Definition TEMPLATE_ROOT : string := default "templates" (environ w !! "TEMPLATE_ROOT").

Definition ATTACH_LANG_DIR_FALLBACK : bool :=
  bool_decide (default "1" (environ w !! "ATTACH_LANG_DIR") = "1").

Definition DEFAULTS : gmap string string :=
  {[ "from_name" := default SENDER_NAME (environ w !! "FROM_NAME");
     "from_email" := default (default "" SENDER_EMAIL) (environ w !! "FROM_EMAIL");
     "reply_to" := default (default "" SENDER_EMAIL) (environ w !! "REPLY_TO") ]}.

(** [str(x)] of an optional string inside an f-string. *)
Definition str_of (o : option string) : string := default "None" o.

(** [sorted(l)] on strings: ascending code points. *)
Definition sorted (l : list string) : list string := merge_sort String.le l.

(** ** [load_templates] *)

(** Lines 63-67: the normalised language and the three template paths. *)
Definition load_templates_paths (lang : string) (row : Row)
  : string * string * string * string :=
  let lang := PyStr.lower (PyStr.strip (if PyStr.truthy lang then lang else "en")) in
  let lang_dir := PyPath.join TEMPLATE_ROOT lang in
  let subj_path := PyStr.strip (get_or row "subject_file" (PyPath.join lang_dir "subject.txt")) in
  let body_txt := PyStr.strip (get_or row "body_file" (PyPath.join lang_dir "body.txt")) in
  let body_html := PyStr.strip (get_or row "body_html_file" (PyPath.join lang_dir "body.html")) in
  (lang, subj_path, body_txt, body_html).

Definition load_templates (lang : string) (row : Row)
  : Result (string * string * option string * string) :=
  let '(lang, subj_path, body_txt, body_html) := load_templates_paths lang row in
  if negb (isfile w subj_path)
  then Raise ("Missing subject template: " +:+ subj_path)
  else if negb (isfile w body_txt)
  then Raise ("Missing body template: " +:+ body_txt)
  else
    subject_text ← read_text w subj_path;
    body_text ← read_text w body_txt;
    html_text ←
      (if isfile w body_html
       then candidate ← read_text w body_html;
            let candidate := PyStr.strip candidate in
            mret (if PyStr.truthy candidate then Some candidate else None)
       else mret None);
    mret (subject_text, body_text, html_text, lang).

(** ** [expand_attachments] *)

(** Line 92: the patterns, trimmed, the empty ones dropped. *)
Definition split_list (value : string) : list string :=
  omap (λ p, if PyStr.truthy (PyStr.strip p) then Some (PyStr.strip p) else None)
       (PyStr.split "," (PyStr.replace ";" "," value)).

(** Lines 94-99: the matches of each pattern, in pattern order. *)
Fixpoint expand_patterns (parts : list string) : Eff (list string) :=
  match parts with
  | [] => mret []
  | pat :: parts' =>
      let matches := sorted (glob w pat) in
      found ← (if bool_decide (matches ≠ [])
               then mret (filter (λ m, isfile w m) matches)
               else log WARNING ("[ATTACH] pattern matched nothing: " +:+ pat);; mret []);
      rest ← expand_patterns parts';
      mret (found ++ rest)
  end.

(** Lines 100-105: the loop over [files] with its two accumulators. *)
Fixpoint uniq_loop (uniq : list string) (seen : gset string) (files : list string)
  : list string :=
  match files with
  | [] => uniq
  | f :: files' =>
      if bool_decide (f ∈ seen) then uniq_loop uniq seen files'
      else uniq_loop (uniq ++ [f]) ({[f]} ∪ seen) files'
  end.

Definition expand_attachments (value : string) : Eff (list string) :=
  if negb (PyStr.truthy value) then mret []
  else
    files ← expand_patterns (split_list value);
    mret (uniq_loop [] ∅ files).

(** ** [EmailMessage] operations *)

Definition empty_message : EmailMessage :=
  {| headers := []; content := None; alternative := None; attachments := [] |}.

Definition same_name (name : string) (h : string * string) : bool :=
  bool_decide (PyStr.lower h.1 = PyStr.lower name).

(** [msg[name] = value] under the default policy, for the headers used here
    (each of them may occur once): a second occurrence and a value of
    more than one line are refused with [ValueError]. *)
Definition set_header (msg : EmailMessage) (name value : string) : Result EmailMessage :=
  if existsb (same_name name) (headers msg)
  then Raise ("There may be at most 1 " +:+ name +:+ " headers in a message")
  else if bool_decide (1 < length (PyStr.splitlines value))%nat
  then Raise "Header values may not contain linefeed or carriage return characters"
  else Ok {| headers := headers msg ++ [(name, value)];
             content := content msg;
             alternative := alternative msg;
             attachments := attachments msg |}.

(** [del msg[name]]: every occurrence goes, names compared without case. *)
Definition del_header (msg : EmailMessage) (name : string) : EmailMessage :=
  {| headers := List.filter (λ h, negb (same_name name h)) (headers msg);
     content := content msg;
     alternative := alternative msg;
     attachments := attachments msg |}.

(** [msg[name]] *)
Definition get_header (msg : EmailMessage) (name : string) : option string :=
  snd <$> List.find (same_name name) (headers msg).

Definition set_content (msg : EmailMessage) (body : string) : EmailMessage :=
  {| headers := headers msg; content := Some body;
     alternative := alternative msg; attachments := attachments msg |}.

Definition add_alternative (msg : EmailMessage) (html : string) : EmailMessage :=
  {| headers := headers msg; content := content msg;
     alternative := Some html; attachments := attachments msg |}.

Definition add_attachment (msg : EmailMessage) (a : Attachment) : EmailMessage :=
  {| headers := headers msg; content := content msg;
     alternative := alternative msg; attachments := attachments msg ++ [a] |}.

(** [ctype.split("/", 1)] unpacked into two names. *)
Fixpoint split_once (s : string) : option (string * string) :=
  match s with
  | EmptyString => None
  | String c s' =>
      if Ascii.eqb c "/" then Some (EmptyString, s')
      else '(a, b) ← split_once s'; Some (String c a, b)
  end.

(** ** [attach_file] *)
Definition attach_file (msg : EmailMessage) (path : string) : Result EmailMessage :=
  let '(ctype, encoding) := guess_type w path in
  let ctype :=
    match ctype, encoding with
    | Some c, None => c
    | _, _ => "application/octet-stream"
    end in
  match split_once ctype with
  | None => Raise "not enough values to unpack (expected 2, got 1)"
  | Some (maintype, subtype) =>
      data ← read_bytes w path;
      mret (add_attachment msg
              {| att_maintype := maintype; att_subtype := subtype;
                 att_filename := PyPath.basename path; att_data := data |})
  end.

(** ** [build_message] *)

(** Lines 197 and 199: the addresses of a cc or bcc field. *)
Definition address_list (field : string) : list string := split_list field.

(** Lines 185-189: the attachment files of a row, with the fallback to the
    per-language directory. *)
Definition build_message_files (row : Row) (lang : string) : Eff (list string) :=
  files ← expand_attachments (default "" (row_get row "attachments"));
  if bool_decide (files = []) && ATTACH_LANG_DIR_FALLBACK
  then
    let lang_dir := PyPath.join "attachments" lang in
    if isdir w lang_dir
    then mret (sorted (filter (λ p, isfile w p) (glob w (PyPath.join lang_dir "*"))))
    else mret files
  else mret files.

(** Lines 190-194: a file that cannot be attached costs a warning. *)
Fixpoint attach_files (msg : EmailMessage) (files : list string) : Eff EmailMessage :=
  match files with
  | [] => mret msg
  | path :: files' =>
      msg ← (match attach_file msg path with
             | Ok msg' => mret msg'
             | Raise e => log WARNING ("[ATTACH-ERR] " +:+ path +:+ ": " +:+ e);; mret msg
             end);
      attach_files msg files'
  end.

(** Line 164: the language tag handed to [load_templates]. *)
Definition build_message_lang (row : Row) : string :=
  PyStr.lower (PyStr.strip (get_or row "lang" "en")).

(** Line 169: the defaults overlaid by the fields of the row. *)
Definition build_message_mapping (row : Row) : gmap string string :=
  (default "" <$> row) ∪ DEFAULTS.

(** Line 170: the subject, rendered, trimmed, its newlines turned to spaces. *)
Definition build_message_subject (subject_tpl : string) (mapping : gmap string string)
  : string :=
  PyStr.replace "010" " " (PyStr.strip (render subject_tpl mapping)).

(** Lines 172-181: the headers of the new message. *)
Definition build_message_headers (row : Row) (subject to_addr : string)
  : Result EmailMessage :=
  msg ← set_header empty_message "Subject" subject;
  msg ← set_header msg "From" (SENDER_NAME +:+ " <" +:+ str_of SENDER_EMAIL +:+ ">");
  msg ← set_header msg "To" to_addr;
  msg ← (if row_truthy row "cc"
         then set_header msg "Cc" (get_or row "cc" "") else Ok msg);
  msg ← (if row_truthy row "bcc"
         then set_header msg "Bcc" (get_or row "bcc" "") else Ok msg);
  match DEFAULTS !! "reply_to" with
  | Some r => if PyStr.truthy r then set_header msg "Reply-To" r else Ok msg
  | None => Ok msg
  end.

(** Lines 195-203: the transport recipients, and the Bcc header removed. *)
Definition build_message_recipients (row : Row) (to_addr : string) (msg : EmailMessage)
  : EmailMessage * list string :=
  let recipients := [to_addr] in
  let recipients :=
    if row_truthy row "cc"
    then recipients ++ address_list (get_or row "cc" "") else recipients in
  if row_truthy row "bcc"
  then (del_header msg "Bcc", recipients ++ address_list (get_or row "bcc" ""))
  else (msg, recipients).

Definition build_message (row : Row) : Eff (EmailMessage * string * list string) :=
  let lang := build_message_lang row in
  let to_addr := PyStr.strip (get_or row "email" "") in
  if negb (PyStr.truthy to_addr) || negb (PyStr.contains "@" to_addr)
  then raise ("Invalid recipient: " +:+ to_addr)
  else
    '(subject_tpl, body_txt, body_html, lang) ← lift (load_templates lang row);
    let mapping := build_message_mapping row in
    let subject := build_message_subject subject_tpl mapping in
    let body_text := render body_txt mapping in
    msg ← lift (build_message_headers row subject to_addr);
    let msg := set_content msg body_text in
    let msg := match body_html with
               | Some html => if PyStr.truthy html
                              then add_alternative msg (render html mapping) else msg
               | None => msg
               end in
    files ← build_message_files row lang;
    msg ← attach_files msg files;
    let '(msg, recipients) := build_message_recipients row to_addr msg in
    mret (msg, subject, recipients).

(** ** The delivery ledger *)

(** [read_sent_index]: the rows of [SENT_CSV] folded into a dictionary keyed
    by the trimmed email; a missing file gives the empty index. *)
Definition sent_key (row : Row) : string := PyStr.strip (get_or row "email" "").

Definition read_sent_index (file : option (list Row)) : gmap string Row :=
  foldl (λ idx row, <[sent_key row := row]> idx) ∅ (default [] file).

(** The row that [append_sent_record] writes. *)
Definition sent_record (time : string) (row : Row) (subject status error : string) : Row :=
  {[ "time" := Some time;
     "email" := Some (PyStr.strip (get_or row "email" ""));
     "name" := Some (PyStr.strip (get_or row "name" ""));
     "lang" := Some (PyStr.strip (get_or row "lang" ""));
     "subject" := Some subject;
     "status" := Some status;
     "error" := Some error ]}.

(** [append_sent_record]: the file is created on the first write. *)
Definition append_sent_record (file : option (list Row))
    (row : Row) (subject status error : string) : option (list Row) :=
  let rows := default [] file in
  Some (rows ++ [sent_record (now w (length rows)) row subject status error]).

(** Line 233: the emails whose latest record has status [success]. *)
Definition already_sent_of (sent_idx : gmap string Row) : gset string :=
  dom (filter (λ kv, row_get kv.2 "status" = Some "success") sent_idx).

(** ** The dispatch loop of [send_batch] (lines 274-296) *)

(** What one turn of the loop does to the outside. *)
Inductive Event :=
| Logged (lvl : Level) (text : string)
| BuildMessage (row : Row)
| SendMessage (msg : EmailMessage) (from_addr : option string) (to_addrs : list string)
| AppendSent (rec : Row)
| Sleep.

Record LoopState := {
  sent : Z;                      (* the counter [sent] *)
  ledger : option (list Row);    (* the rows of [SENT_CSV] *)
  calls : nat;                   (* calls of [send_message] so far *)
}.

(** The body of [for row in rows]: the state after it, what it did, and
    whether it left the loop through [break]. *)
Definition process_row (already_sent : gset string) (resend : bool) (limit : option Z)
    (st : LoopState) (row : Row) : LoopState * list Event * bool :=
  let to_addr := PyStr.strip (get_or row "email" "") in
  if negb (PyStr.truthy to_addr) || negb (PyStr.contains "@" to_addr)
  then (st, [Logged WARNING ("[SKIP] invalid email: " +:+ to_addr)], false)
  else if negb resend && bool_decide (to_addr ∈ already_sent)
  then (st, [Logged INFO ("[SKIP] already sent to " +:+ to_addr)], false)
  else
    let failed (subject : string) (e : string) (evs : list Event) (n : nat) :=
      let file := append_sent_record (ledger st) row subject "failed" e in
      ({| sent := sent st; ledger := file; calls := n |},
       evs ++ [Logged ERROR ("[ERR] " +:+ to_addr +:+ ": " +:+ e);
               AppendSent (sent_record (now w (length (default [] (ledger st))))
                             row subject "failed" e)],
       false) in
    let '(logs, built) := build_message row in
    let evs := BuildMessage row :: (uncurry Logged <$> logs) in
    match built with
    | Raise e => failed "" e evs (calls st)
    | Ok (msg, subject, recipients) =>
        let evs := evs ++ [SendMessage msg SENDER_EMAIL recipients] in
        match smtp_send_message w (calls st) msg SENDER_EMAIL recipients with
        | Raise e => failed subject e evs (S (calls st))
        | Ok _ =>
            let sent' := sent st + 1 in
            let file := append_sent_record (ledger st) row subject "success" "" in
            let stop := match limit with
                        | Some l => bool_decide (l ≤ sent')
                        | None => false
                        end in
            ({| sent := sent'; ledger := file; calls := S (calls st) |},
             evs ++ [Logged INFO ("[OK] " +:+ to_addr +:+ " | " +:+ subject);
                     AppendSent (sent_record (now w (length (default [] (ledger st))))
                                   row subject "success" "");
                     Sleep]
                 ++ (if stop
                     then [Logged INFO ("[STOP] limit " +:+ pretty (default 0 limit) +:+ " reached")]
                     else []),
             stop)
        end
    end.

(** [for row in rows]: one list of events per row entered, in order; the
    rows after a [break] have none. *)
Fixpoint send_loop (already_sent : gset string) (resend : bool) (limit : option Z)
    (st : LoopState) (rows : list Row) : LoopState * list (list Event) :=
  match rows with
  | [] => (st, [])
  | row :: rows' =>
      let '(st', evs, stop) := process_row already_sent resend limit st row in
      if stop then (st', [evs])
      else let '(st'', trace) := send_loop already_sent resend limit st' rows' in
           (st'', evs :: trace)
  end.

(** ** [send_batch] with [dry_run=False] *)

Record BatchRun := {
  trace : list (list Event);          (* per row of the contacts, in order *)
  sent_total : Z;                     (* the count of the "[DONE]" line *)
  ledger_after : option (list Row);   (* [SENT_CSV] when the loop is over *)
  dashboard_index : gmap string Row;  (* the index handed to [generate_dashboard] *)
}.

Definition env_truthy (k : string) : bool :=
  match environ w !! k with
  | Some v => PyStr.truthy v
  | None => false
  end.

Definition join_comma (l : list string) : string :=
  match l with
  | [] => ""
  | x :: l' => foldl (λ acc y, acc +:+ ", " +:+ y) x l'
  end.

Definition send_batch (resend : bool) (limit : option Z) : Result BatchRun :=
  let missing := List.filter (λ k, negb (env_truthy k)) ["SENDER_EMAIL"; "APP_PASSWORD"] in
  if bool_decide (missing ≠ [])
  then Raise ("Missing env vars: " +:+ join_comma missing)
  else
    rows ← contacts_csv w;
    let sent_idx := read_sent_index (sent_csv w) in
    let already_sent := already_sent_of sent_idx in
    _ ← smtp_login w;
    let '(st, tr) := send_loop already_sent resend limit
                       {| sent := 0; ledger := sent_csv w; calls := 0%nat |} rows in
    mret {| trace := tr;
            sent_total := sent st;
            ledger_after := ledger st;
            dashboard_index := read_sent_index (ledger st) |}.

End Mailer.

(** ** Vocabulary of the properties *)

Definition is_build (e : Event) : bool :=
  match e with BuildMessage _ => true | _ => false end.

Definition is_send (e : Event) : bool :=
  match e with SendMessage _ _ _ => true | _ => false end.

(** The records written to the ledger by a list of events, in order. *)
Definition appended (evs : list Event) : list Row :=
  omap (λ e, match e with AppendSent rec => Some rec | _ => None end) evs.

(** The [success] records among them. *)
Definition successes (evs : list Event) : nat :=
  length (List.filter (λ rec, bool_decide (row_get rec "status" = Some "success"))
            (appended evs)).

(** Dispatch attempts (calls of [build_message]) and transport calls. *)
Definition attempts (evs : list Event) : nat := length (List.filter is_build evs).
Definition transports (evs : list Event) : nat := length (List.filter is_send evs).

(** The events of the [i]-th row of the contacts; none when the loop never
    got to it. *)
Definition row_events (tr : list (list Event)) (i : nat) : list Event :=
  default [] (tr !! i).


(** The test of lines 277 and 166 on the trimmed email. *)
Definition well_formed (row : Row) : bool :=
  let to_addr := sent_key row in
  PyStr.truthy to_addr && PyStr.contains "@" to_addr.

(** The row goes past both guards of the loop (lines 277 and 280). *)
Definition dispatched (already_sent : gset string) (resend : bool) (row : Row) : Prop :=
  well_formed row = true ∧ (resend = true ∨ sent_key row ∉ already_sent).


(** The subject that composition renders at line 170, once the templates
    are loaded. *)
Definition rendered_subject (w : World) (row : Row) : option string :=
  match load_templates w (build_message_lang row) row with
  | Ok (subject_tpl, _, _, _) =>
      Some (build_message_subject subject_tpl (build_message_mapping w row))
  | Raise _ => None
  end.

(** The error that ends the dispatch of a row, if composition or the
    transport raises. *)
Definition dispatch_error (w : World) (st : LoopState) (row : Row) : option string :=
  match build_message w row with
  | (_, Raise e) => Some e
  | (_, Ok (msg, _, recipients)) =>
      match smtp_send_message w (calls st) msg (SENDER_EMAIL w) recipients with
      | Raise e => Some e
      | Ok _ => None
      end
  end.

(** A string of whitespace only (the empty one included). *)
Fixpoint is_blank (s : string) : bool :=
  match s with
  | EmptyString => true
  | String c s' => PyStr.isspace c && is_blank s'
  end.

(** The email field is absent, empty after trimming, or without an "@". *)
Inductive malformed (row : Row) : Prop :=
| email_absent : row_get row "email" = None → malformed row
| email_blank s : row_get row "email" = Some s → PyStr.strip s = "" → malformed row
| email_no_at s : row_get row "email" = Some s → PyStr.contains "@" s = false → malformed row.

(** ** Sample worlds

    A template tree with the English subject and body, a contacts file and a
    ledger file given as rows, and a transport that answers by call number. *)

Module Demo.

Definition env : gmap string string :=
  {[ "SENDER_EMAIL" := "me@example.org"; "APP_PASSWORD" := "secret" ]}.

Definition world (env : gmap string string) (contacts : list Row)
    (file : option (list Row)) (send : nat → Result unit) : World :=
  {| environ := env;
     glob := λ _, [];
     isfile := λ p, bool_decide (p ∈ ["templates/en/subject.txt"; "templates/en/body.txt"]);
     isdir := λ _, false;
     read_text := λ p, if bool_decide (p = "templates/en/subject.txt")
                       then Ok "Hello $name" else Ok "Hi $name, welcome.";
     read_bytes := λ _, Raise "[Errno 2] No such file or directory";
     guess_type := λ _, (None, None);
     contacts_csv := Ok contacts;
     sent_csv := file;
     smtp_login := Ok tt;
     smtp_send_message := λ n _ _ _, send n;
     now := λ n, "2025-09-13T19:00:0" +:+ pretty n |}.

Definition accept : nat → Result unit := λ _, Ok tt.
Definition refuse : nat → Result unit := λ _, Raise "Connection unexpectedly closed".

Definition ana : Row := {[ "email" := Some "a@x.com"; "name" := Some "Ana" ]}.
Definition bob : Row := {[ "email" := Some " b@x.com "; "name" := Some "Bob" ]}.
Definition bad : Row := {[ "email" := Some "bad"; "name" := Some "Nobody" ]}.

(** A row whose cc cell holds two addresses on two lines. *)
Definition eve : Row :=
  {[ "email" := Some "e@x.com"; "name" := Some "Eve";
     "cc" := Some ("c@x.com" +:+ String "010" "d@x.com") ]}.

Definition start : LoopState := {| sent := 0; ledger := None; calls := 0 |}.

(** A ledger row as [csv.DictReader] returns it. *)
Definition event (email status : string) : Row :=
  {[ "time" := Some "2025-09-12T08:00:00"; "email" := Some email;
     "name" := Some ""; "lang" := Some ""; "subject" := Some "Hello";
     "status" := Some status; "error" := Some "" ]}.

(** A world with attachments: a file "a.txt" in the working directory,
    which [glob] finds under the spelling it is asked for, and a default
    attachment for English. *)
Definition shelf (env : gmap string string) : World :=
  {| environ := env;
     glob := λ pat,
       if bool_decide (pat = "attachments/en/*") then ["attachments/en/terms.pdf"]
       else if bool_decide (pat ∈ ["a.txt"; "./a.txt"]) then [pat]
       else [];
     isfile := λ p, bool_decide (p ∈ ["templates/en/subject.txt"; "templates/en/body.txt";
                                     "a.txt"; "./a.txt"; "attachments/en/terms.pdf"]);
     isdir := λ p, bool_decide (p ∈ ["templates"; "templates/en"; "attachments";
                                    "attachments/en"]);
     read_text := λ p, if bool_decide (p = "templates/en/subject.txt")
                       then Ok "Hello $name" else Ok "Hi $name, welcome.";
     read_bytes := λ _, Ok "%PDF";
     guess_type := λ _, (None, None);
     contacts_csv := Ok [];
     sent_csv := None;
     smtp_login := Ok tt;
     smtp_send_message := λ _ _ _ _, Ok tt;
     now := λ n, "2025-09-13T19:00:0" +:+ pretty n |}.

(** A row with a carbon copy and two blind copies. *)
Definition zoe : Row :=
  {[ "email" := Some "z@x.com"; "name" := Some "Zoe"; "cc" := Some "c@x.com";
     "bcc" := Some " h1@x.com; ;h2@x.com," ]}.

(** What a composition that did not raise returned. *)
Definition built (r : Eff (EmailMessage * string * list string))
  : EmailMessage * string * list string :=
  match r.2 with
  | Ok x => x
  | Raise _ => (empty_message, "", [])
  end.

(** The run of a batch that was not aborted. *)
Definition run_of (r : Result BatchRun) : BatchRun :=
  match r with
  | Ok run => run
  | Raise _ => {| trace := []; sent_total := 0; ledger_after := None;
                  dashboard_index := ∅ |}
  end.

End Demo.

(** ** The properties as the design document words them *)


(** A failed dispatch is recorded with the rendered subject whenever the
    subject was rendered, and with the empty string otherwise. *)
Definition failure_keeps_rendered_subject (w : World) : Prop :=
  ∀ already_sent resend limit st row e,
    dispatched already_sent resend row → dispatch_error w st row = Some e →
    appended (process_row w already_sent resend limit st row).1.2
    = [sent_record (now w (length (default [] (ledger st)))) row
         (default "" (rendered_subject w row)) "failed" e].

(** The subject that the loop holds when a dispatch fails: the one that
    [build_message] returned, or the initial empty string when it raised. *)
Definition recorded_subject (w : World) (row : Row) : string :=
  match (build_message w row).2 with
  | Ok _ => default "" (rendered_subject w row)
  | Raise _ => ""
  end.



(** Position of the first occurrence of a path in a list. *)
Fixpoint first_index (p : string) (l : list string) : option nat :=
  match l with
  | [] => None
  | x :: l' => if decide (x = p) then Some 0%nat else S <$> first_index p l'
  end.

(** The first occurrence of [p] comes before the first occurrence of [q]. *)
Definition first_seen_before (files : list string) (p q : string) : Prop :=
  ∃ a b, first_index p files = Some a ∧ first_index q files = Some b ∧ (a < b)%nat.

(** The matches of the patterns of an attachment field: per pattern the
    sorted matches that are regular files, in pattern order. *)
Definition pattern_matches (w : World) (value : string) : list string :=
  concat ((λ pat, filter (λ m, isfile w m) (sorted (glob w pat))) <$> split_list value).

(** The warnings for the patterns of a field that match nothing. *)
Definition pattern_warnings (w : World) (value : string) : list (Level * string) :=
  (λ pat, (WARNING, "[ATTACH] pattern matched nothing: " +:+ pat))
    <$> filter (λ pat, glob w pat = []) (split_list value).

(** ** Vocabulary of the further properties *)

(** Nothing is left to trim on the left of a string. *)
Definition clean_head (s : string) : Prop :=
  match s with
  | String c _ => PyStr.isspace c = false
  | EmptyString => True
  end.

(** The ledger file once the records [recs] were appended to it. *)
Definition extend (file : option (list Row)) (recs : list Row) : option (list Row) :=
  match recs with
  | [] => file
  | _ => Some (default [] file ++ recs)
  end.

(** The pauses among the events of a row. *)
Definition sleeps (evs : list Event) : nat :=
  length (List.filter (λ e, match e with Sleep => true | _ => false end) evs).

(** All the records that a run appended, in order. *)
Definition appended_by (tr : list (list Event)) : list Row :=
  concat (appended <$> tr).

(** The text has no two "$" in a row; [after] tells that a "$" comes right
    before it. *)
Fixpoint no_double_dollar_from (after : bool) (s : string) : bool :=
  match s with
  | EmptyString => true
  | String c s' =>
      if Ascii.eqb c "$" then negb after && no_double_dollar_from true s'
      else no_double_dollar_from false s'
  end.

Definition no_double_dollar (s : string) : bool := no_double_dollar_from false s.

(** ** [_sanitize] (line 211) *)

(** The characters of the class [A-Za-z0-9_.-]. *)
Definition is_safe (c : ascii) : bool :=
  let n := nat_of_ascii c in
  ((65 <=? n)%nat && (n <=? 90)%nat) || ((97 <=? n)%nat && (n <=? 122)%nat)
  || ((48 <=? n)%nat && (n <=? 57)%nat)
  || (n =? 95)%nat || (n =? 46)%nat || (n =? 45)%nat.

(** [re.sub(r"[^A-Za-z0-9_.-]+", "_", name)]: every maximal run of other
    characters becomes one underscore; [in_run] tells that the previous
    character belongs to such a run. *)
Fixpoint sub_unsafe (in_run : bool) (name : string) : string :=
  match name with
  | EmptyString => EmptyString
  | String c name' =>
      if is_safe c then String c (sub_unsafe false name')
      else if in_run then sub_unsafe true name'
      else String "_" (sub_unsafe true name')
  end.

(** [s[:n]] *)
Fixpoint slice_to (n : nat) (s : string) : string :=
  match n, s with
  | S n', String c s' => String c (slice_to n' s')
  | _, _ => EmptyString
  end.

Definition _sanitize (name : string) : string := slice_to 120 (sub_unsafe false name).

(** Every character of the string is in the class. *)
Fixpoint all_safe (s : string) : bool :=
  match s with
  | EmptyString => true
  | String c s' => is_safe c && all_safe s'
  end.

(** A field made of blanks, commas and semicolons only. *)
Fixpoint only_separators (s : string) : bool :=
  match s with
  | EmptyString => true
  | String c s' =>
      (PyStr.isspace c || Ascii.eqb c "," || Ascii.eqb c ";") && only_separators s'
  end.

(** * Properties *)

(** ** Strings *)

(** Placeholders known to the mapping are replaced, the others and the
    malformed ones stay as written, [$$] gives one delimiter. *)
Example render_ex :
  render "Hi $name, ${x}$$ $1 ${y z" {[ "name" := "Ana" ]} = "Hi Ana, ${x}$ $1 ${y z".
Proof. vm_compute. reflexivity. Qed.

Lemma contains_rev_app c s1 s2 :
  PyStr.contains c (String.rev_app s1 s2) = PyStr.contains c s1 || PyStr.contains c s2.
Proof.
  revert s2. induction s1 as [|d s1 IH]; intros s2; simpl; [done|].
  rewrite IH. simpl. destruct (Ascii.eqb d c), (PyStr.contains c s1); done.
Qed.

Lemma contains_rev c s : PyStr.contains c (String.rev s) = PyStr.contains c s.
Proof. unfold String.rev. rewrite contains_rev_app. simpl. apply orb_false_r. Qed.

Lemma contains_lstrip c s :
  PyStr.contains c (PyStr.lstrip s) = true → PyStr.contains c s = true.
Proof.
  induction s as [|d s IH]; simpl; [done|].
  destruct (PyStr.isspace d); [|done].
  intros H. rewrite (IH H). apply orb_true_r.
Qed.

Lemma contains_strip c s :
  PyStr.contains c (PyStr.strip s) = true → PyStr.contains c s = true.
Proof.
  unfold PyStr.strip, PyStr.rstrip. rewrite contains_rev.
  intros H%contains_lstrip. rewrite contains_rev in H.
  by apply contains_lstrip.
Qed.

Lemma lstrip_blank s : is_blank s = true → PyStr.lstrip s = "".
Proof.
  induction s as [|c s IH]; simpl; [done|].
  intros [Hc Hs]%andb_true_iff. rewrite Hc. auto.
Qed.

Lemma strip_blank s : is_blank s = true → PyStr.strip s = "".
Proof. intros H. unfold PyStr.strip. by rewrite (lstrip_blank _ H). Qed.

(** A row without a well-formed email fails the test of the loop. *)
Lemma malformed_not_well_formed row : malformed row → well_formed row = false.
Proof.
  unfold well_formed, sent_key, get_or.
  intros [H|s H Hs|s H Hs]; rewrite H.
  - done.
  - destruct (PyStr.truthy s); [by rewrite Hs|done].
  - destruct (PyStr.truthy s); [|done].
    apply andb_false_iff. right.
    destruct (PyStr.contains "@" (PyStr.strip s)) eqn:E; [|done].
    apply contains_strip in E. congruence.
Qed.

(** ** Counting the events of a row *)

Lemma attempts_app evs1 evs2 : attempts (evs1 ++ evs2) = (attempts evs1 + attempts evs2)%nat.
Proof. unfold attempts. by rewrite List.filter_app, length_app. Qed.

Lemma transports_app evs1 evs2 :
  transports (evs1 ++ evs2) = (transports evs1 + transports evs2)%nat.
Proof. unfold transports. by rewrite List.filter_app, length_app. Qed.

Lemma appended_app evs1 evs2 : appended (evs1 ++ evs2) = appended evs1 ++ appended evs2.
Proof. apply omap_app. Qed.

Lemma attempts_logged logs : attempts (uncurry Logged <$> logs) = 0%nat.
Proof. induction logs as [|[??] logs IH]; [done|]. exact IH. Qed.

Lemma transports_logged logs : transports (uncurry Logged <$> logs) = 0%nat.
Proof. induction logs as [|[??] logs IH]; [done|]. exact IH. Qed.

Lemma appended_logged logs : appended (uncurry Logged <$> logs) = [].
Proof. induction logs as [|[??] logs IH]; [done|]. exact IH. Qed.

(** ** One turn of the loop, case by case *)

Section Turn.

Context (w : World) (already_sent : gset string) (resend : bool) (limit : option Z).
Implicit Types (st : LoopState) (row : Row).

Local Abbreviation turn := (process_row w already_sent resend limit).
Local Abbreviation dispatched := (dispatched already_sent resend).

Lemma process_row_malformed st row :
  well_formed row = false →
  turn st row = (st, [Logged WARNING ("[SKIP] invalid email: " +:+ sent_key row)], false).
Proof.
  unfold well_formed, process_row. fold (sent_key row). intros H.
  destruct (PyStr.truthy (sent_key row)); [|done].
  simpl in H. by rewrite H.
Qed.

Lemma process_row_skip st row :
  well_formed row = true → resend = false → sent_key row ∈ already_sent →
  turn st row = (st, [Logged INFO ("[SKIP] already sent to " +:+ sent_key row)], false).
Proof.
  unfold well_formed, process_row. fold (sent_key row).
  intros [-> ->]%andb_true_iff -> Hin. simpl.
  by rewrite (bool_decide_eq_true_2 _ Hin).
Qed.

Lemma process_row_build_fails st row logs e :
  dispatched row → build_message w row = (logs, Raise e) →
  turn st row =
    ({| sent := sent st;
        ledger := append_sent_record w (ledger st) row "" "failed" e;
        calls := calls st |},
     (BuildMessage row :: (uncurry Logged <$> logs))
       ++ [Logged ERROR ("[ERR] " +:+ sent_key row +:+ ": " +:+ e);
           AppendSent (sent_record (now w (length (default [] (ledger st))))
                         row "" "failed" e)],
     false).
Proof.
  unfold well_formed, process_row. fold (sent_key row).
  intros [[-> ->]%andb_true_iff Hgo] ->. simpl.
  destruct Hgo as [->|Hout]; [done|].
  by rewrite (bool_decide_eq_false_2 _ Hout), andb_false_r.
Qed.

Lemma process_row_send_fails st row logs msg subject recipients e :
  dispatched row → build_message w row = (logs, Ok (msg, subject, recipients)) →
  smtp_send_message w (calls st) msg (SENDER_EMAIL w) recipients = Raise e →
  turn st row =
    ({| sent := sent st;
        ledger := append_sent_record w (ledger st) row subject "failed" e;
        calls := S (calls st) |},
     ((BuildMessage row :: (uncurry Logged <$> logs))
        ++ [SendMessage msg (SENDER_EMAIL w) recipients])
       ++ [Logged ERROR ("[ERR] " +:+ sent_key row +:+ ": " +:+ e);
           AppendSent (sent_record (now w (length (default [] (ledger st))))
                         row subject "failed" e)],
     false).
Proof.
  unfold well_formed, process_row. fold (sent_key row).
  intros [[-> ->]%andb_true_iff Hgo] -> ->. simpl.
  destruct Hgo as [->|Hout]; [done|].
  by rewrite (bool_decide_eq_false_2 _ Hout), andb_false_r.
Qed.

Lemma process_row_sent st row logs msg subject recipients u :
  dispatched row → build_message w row = (logs, Ok (msg, subject, recipients)) →
  smtp_send_message w (calls st) msg (SENDER_EMAIL w) recipients = Ok u →
  let stop := match limit with
              | Some l => bool_decide (l ≤ sent st + 1)
              | None => false
              end in
  turn st row =
    ({| sent := sent st + 1;
        ledger := append_sent_record w (ledger st) row subject "success" "";
        calls := S (calls st) |},
     ((BuildMessage row :: (uncurry Logged <$> logs))
        ++ [SendMessage msg (SENDER_EMAIL w) recipients])
       ++ [Logged INFO ("[OK] " +:+ sent_key row +:+ " | " +:+ subject);
           AppendSent (sent_record (now w (length (default [] (ledger st))))
                         row subject "success" "");
           Sleep]
       ++ (if stop
           then [Logged INFO ("[STOP] limit " +:+ pretty (default 0 limit) +:+ " reached")]
           else []),
     stop).
Proof.
  unfold well_formed, process_row. fold (sent_key row).
  intros [[-> ->]%andb_true_iff Hgo] -> ->. simpl.
  destruct Hgo as [->|Hout]; [done|].
  by rewrite (bool_decide_eq_false_2 _ Hout), andb_false_r.
Qed.

(** A dispatched row costs one call of [build_message], at most one
    transport call and one ledger record. *)
Lemma process_row_dispatched st row :
  dispatched row →
  attempts (turn st row).1.2 = 1%nat
  ∧ (transports (turn st row).1.2 ≤ 1)%nat
  ∧ length (appended (turn st row).1.2) = 1%nat.
Proof.
  intros Hd.
  destruct (build_message w row) as [logs [[[msg subject] recipients]|e]] eqn:Hb.
  - destruct (smtp_send_message w (calls st) msg (SENDER_EMAIL w) recipients)
      as [u|e] eqn:Hs.
    + rewrite (process_row_sent _ _ _ _ _ _ _ Hd Hb Hs). cbn [fst snd].
      rewrite !attempts_app, !transports_app, !appended_app.
      change (BuildMessage row :: ?l) with ([BuildMessage row] ++ l).
      rewrite !attempts_app, !transports_app, !appended_app.
      rewrite attempts_logged, transports_logged, appended_logged.
      destruct limit as [l|]; [destruct (bool_decide (l ≤ sent st + 1))|];
        cbn; repeat split; lia.
    + rewrite (process_row_send_fails _ _ _ _ _ _ _ Hd Hb Hs). cbn [fst snd].
      change (BuildMessage row :: ?l) with ([BuildMessage row] ++ l).
      rewrite !attempts_app, !transports_app, !appended_app.
      rewrite attempts_logged, transports_logged, appended_logged.
      cbn; repeat split; lia.
  - rewrite (process_row_build_fails _ _ _ _ Hd Hb). cbn [fst snd].
    change (BuildMessage row :: ?l) with ([BuildMessage row] ++ l).
    rewrite !attempts_app, !transports_app, !appended_app.
    rewrite attempts_logged, transports_logged, appended_logged.
    cbn; repeat split; lia.
Qed.

(** A row that is not dispatched costs a log line and nothing else. *)
Lemma process_row_not_dispatched st row :
  ¬ dispatched row →
  (turn st row).1.1 = st ∧ (turn st row).2 = false
  ∧ attempts (turn st row).1.2 = 0%nat
  ∧ transports (turn st row).1.2 = 0%nat
  ∧ appended (turn st row).1.2 = [].
Proof.
  intros Hn. destruct (well_formed row) eqn:Hw.
  - destruct (decide (resend = true)) as [Hr|Hr%not_true_is_false].
    { exfalso. apply Hn. split; auto. }
    destruct (decide (sent_key row ∈ already_sent)) as [Hin|Hout].
    { by rewrite (process_row_skip _ _ Hw Hr Hin). }
    exfalso. apply Hn. split; auto.
  - by rewrite (process_row_malformed _ _ Hw).
Qed.

End Turn.

(** ** The loop as a whole *)

Section Loop.

Context (w : World) (already_sent : gset string) (resend : bool) (limit : option Z).
Implicit Types (st : LoopState) (row : Row) (rows : list Row).

Local Abbreviation turn := (process_row w already_sent resend limit).
Local Abbreviation loop := (send_loop w already_sent resend limit).

Lemma send_loop_cons st row rows :
  loop st (row :: rows) =
    if (turn st row).2 then ((turn st row).1.1, [(turn st row).1.2])
    else ((loop (turn st row).1.1 rows).1,
          (turn st row).1.2 :: (loop (turn st row).1.1 rows).2).
Proof.
  cbn [send_loop]. destruct (turn st row) as [[st' evs] [|]]; cbn [fst snd]; [done|].
  by destruct (loop st' rows).
Qed.

(** The events recorded for a row are those of one turn on that row. *)
Lemma send_loop_lookup rows st i evs :
  (loop st rows).2 !! i = Some evs →
  ∃ st_i row, rows !! i = Some row ∧ evs = (turn st_i row).1.2.
Proof.
  revert st i. induction rows as [|row rows IH]; intros st i; [done|].
  rewrite send_loop_cons. destruct ((turn st row).2).
  - destruct i as [|i]; [|done]. intros [= <-]. by exists st, row.
  - destruct i as [|i]; cbn [snd].
    + intros [= <-]. by exists st, row.
    + intros H. apply IH in H. exact H.
Qed.

Lemma send_loop_length_le rows st : (length (loop st rows).2 ≤ length rows)%nat.
Proof.
  revert st. induction rows as [|row rows IH]; intros st; [done|].
  rewrite send_loop_cons. destruct ((turn st row).2); simpl.
  - lia.
  - specialize (IH (turn st row).1.1). lia.
Qed.

(** Only a reached limit leaves the loop. *)
Lemma process_row_stop st row :
  (turn st row).2 = true →
  ∃ l, limit = Some l ∧ l ≤ sent st + 1 ∧ sent (turn st row).1.1 = sent st + 1.
Proof.
  destruct (decide (well_formed row = true
                    ∧ (resend = true ∨ sent_key row ∉ already_sent))) as [Hd|Hn].
  2: { apply (process_row_not_dispatched w already_sent resend limit st) in Hn.
       destruct Hn as (_ & -> & _). done. }
  destruct (build_message w row) as [logs [[[msg subject] recipients]|e]] eqn:Hb.
  2: { by rewrite (process_row_build_fails _ _ _ _ _ _ _ _ Hd Hb). }
  destruct (smtp_send_message w (calls st) msg (SENDER_EMAIL w) recipients)
    as [u|e] eqn:Hs.
  2: { by rewrite (process_row_send_fails _ _ _ _ _ _ _ _ _ _ _ Hd Hb Hs). }
  rewrite (process_row_sent _ _ _ _ _ _ _ _ _ _ _ Hd Hb Hs). cbn [fst snd sent].
  destruct limit as [l|]; [|done].
  intros ?%bool_decide_eq_true. by exists l.
Qed.

End Loop.

(** ** The ledger index *)

Lemma read_sent_index_snoc rows row :
  read_sent_index (Some (rows ++ [row])) =
    <[sent_key row := row]> (read_sent_index (Some rows)).
Proof. unfold read_sent_index. simpl. by rewrite foldl_app. Qed.

(** The index holds, for each key, the last row of the file with that key. *)
Lemma read_sent_index_lookup (file : option (list Row)) (email : string) :
  read_sent_index file !! email
  = last (filter (λ r, sent_key r = email) (default [] file)).
Proof.
  destruct file as [rows|]; [|done]. simpl.
  induction rows as [|row rows IH] using rev_ind; [done|].
  rewrite read_sent_index_snoc, filter_app.
  destruct (decide (sent_key row = email)) as [<-|Hne].
  - rewrite lookup_insert_eq, filter_cons_True, filter_nil by done.
    by rewrite last_snoc.
  - rewrite lookup_insert_ne, filter_cons_False, filter_nil by done.
    by rewrite app_nil_r.
Qed.


(** ** A batch run *)

(** What a run that was not aborted consists of. *)
Lemma send_batch_inv w resend limit run :
  send_batch w resend limit = Ok run →
  ∃ rows, contacts_csv w = Ok rows
    ∧ let out := send_loop w (already_sent_of (read_sent_index (sent_csv w)))
                   resend limit {| sent := 0; ledger := sent_csv w; calls := 0 |} rows in
      trace run = out.2 ∧ sent_total run = sent out.1 ∧ ledger_after run = ledger out.1.
Proof.
  unfold send_batch. case_bool_decide; [done|].
  destruct (contacts_csv w) as [rows|]; [|done]. cbn.
  destruct (smtp_login w); [|done]. cbn.
  destruct (send_loop _ _ _ _ _ _) as [st tr] eqn:E.
  intros [= <-]. exists rows. by rewrite E.
Qed.

(** Without a limit the loop gets to every row. *)
Lemma send_loop_no_limit w already_sent resend st rows :
  length (send_loop w already_sent resend None st rows).2 = length rows.
Proof.
  revert st. induction rows as [|row rows IH]; intros st; [done|].
  rewrite send_loop_cons.
  destruct ((process_row w already_sent resend None st row).2) eqn:E.
  - apply process_row_stop in E as (l & ? & _). done.
  - simpl. by rewrite IH.
Qed.


(** ** Dispatch and skip (C1) *)






Lemma sent_record_status time row subject status error :
  row_get (sent_record time row subject status error) "status" = Some status.
Proof. unfold row_get, sent_record. by simplify_map_eq. Qed.

(** ** The limit (C3) *)

Lemma successes_app evs1 evs2 :
  successes (evs1 ++ evs2) = (successes evs1 + successes evs2)%nat.
Proof. unfold successes. by rewrite appended_app, List.filter_app, length_app. Qed.

Lemma successes_logged logs : successes (uncurry Logged <$> logs) = 0%nat.
Proof. unfold successes. by rewrite appended_logged. Qed.

Section Limit.

Context (w : World) (already_sent : gset string) (resend : bool).
Implicit Types (st : LoopState) (row : Row) (rows : list Row) (l : Z).

(** One turn: the counter [sent] grows by the success records written. *)
Lemma process_row_successes limit st row :
  let out := process_row w already_sent resend limit st row in
  sent out.1.1 = sent st + Z.of_nat (successes out.1.2)
  ∧ (out.2 = true → successes out.1.2 = 1%nat).
Proof.
  cbn zeta.
  destruct (decide (dispatched already_sent resend row)) as [Hd|Hn].
  2: { apply (process_row_not_dispatched w already_sent resend limit st) in Hn.
       destruct Hn as (-> & -> & _ & _ & Ha). unfold successes. rewrite Ha.
       split; [simpl; lia|done]. }
  destruct (build_message w row) as [logs [[[msg subject] recipients]|e]] eqn:Hb.
  2: { rewrite (process_row_build_fails _ _ _ _ _ _ _ _ Hd Hb). cbn [fst snd sent].
       change (BuildMessage row :: ?x) with ([BuildMessage row] ++ x).
       rewrite !successes_app, successes_logged. unfold successes. cbn.
       rewrite sent_record_status, bool_decide_eq_false_2 by done.
       cbn. split; [lia|done]. }
  destruct (smtp_send_message w (calls st) msg (SENDER_EMAIL w) recipients)
    as [u|e] eqn:Hs.
  2: { rewrite (process_row_send_fails _ _ _ _ _ _ _ _ _ _ _ Hd Hb Hs).
       cbn [fst snd sent].
       change (BuildMessage row :: ?x) with ([BuildMessage row] ++ x).
       rewrite !successes_app, successes_logged. unfold successes. cbn.
       rewrite sent_record_status, bool_decide_eq_false_2 by done.
       cbn. split; [lia|done]. }
  rewrite (process_row_sent _ _ _ _ _ _ _ _ _ _ _ Hd Hb Hs). cbn [fst snd sent].
  change (BuildMessage row :: ?x) with ([BuildMessage row] ++ x).
  rewrite !successes_app, successes_logged.
  assert (∀ b text, successes (if b : bool then [Logged INFO text] else []) = 0%nat) as ->
    by (by intros []).
  unfold successes. cbn. rewrite sent_record_status, bool_decide_eq_true_2 by done.
  cbn. split; [lia|done].
Qed.


(** The counter at the end is its value at the start plus the success
    records of the whole trace. *)
Lemma send_loop_successes limit st rows :
  let out := send_loop w already_sent resend limit st rows in
  sent out.1 = sent st + Z.of_nat (sum_list (successes <$> out.2)).
Proof.
  cbn zeta. revert st. induction rows as [|row rows IH]; intros st.
  { simpl. lia. }
  rewrite send_loop_cons.
  destruct (process_row_successes limit st row) as [Hs _].
  destruct ((process_row w already_sent resend limit st row).2); cbn [fst snd].
  - rewrite Hs. simpl. lia.
  - rewrite IH, Hs, fmap_cons.
    change (sum_list (?x :: ?l)) with (x + sum_list l)%nat. lia.
Qed.


End Limit.

(** ** Composition *)

Lemma eff_bind_Ok {A B} (m : Eff A) (k : A → Eff B) logs b :
  m ≫= k = (logs, Ok b) →
  ∃ l1 a l2, m = (l1, Ok a) ∧ k a = (l2, Ok b) ∧ logs = l1 ++ l2.
Proof.
  destruct m as [l1 [a|e]]; unfold mbind, Eff_bind; [|done].
  destruct (k a) as [l2 r] eqn:Hk. intros [= <- ->]. by exists l1, a, l2.
Qed.

(** What a successful composition returns: the rendered subject, the
    primary address followed by the cc and the bcc addresses, and a message
    that went through [del msg["Bcc"]] when the row has a bcc field. *)
Lemma build_message_Ok_inv w row logs msg subject recipients :
  build_message w row = (logs, Ok (msg, subject, recipients)) →
  rendered_subject w row = Some subject
  ∧ ∃ msg0, (msg, recipients) = build_message_recipients row (sent_key row) msg0.
Proof.
  unfold build_message, rendered_subject. fold (sent_key row).
  destruct (negb _ || negb _); [done|].
  intros (l1 & [[[subject_tpl body_txt] body_html] lang] & l2 & Hload & H & ->)%eff_bind_Ok.
  unfold lift in Hload. injection Hload as <- Hload. rewrite Hload.
  apply eff_bind_Ok in H as (l3 & msg1 & l4 & _ & H & ->).
  apply eff_bind_Ok in H as (l5 & files & l6 & _ & H & ->).
  apply eff_bind_Ok in H as (l7 & msg2 & l8 & _ & H & ->).
  destruct (build_message_recipients row (sent_key row) msg2) as [msg3 rcpts] eqn:Hr.
  injection H as <- <- <- <-. split; [done|]. by exists msg2.
Qed.

(** ** Failed dispatches (C5) *)

(** C5, as worded, fails when composition raises after the subject was
    rendered: a cc cell of two lines is refused as a header value, the
    subject "Hello Eve" was rendered before that, and the ledger record
    carries the empty subject. *)
Lemma failure_after_rendering_drops_subject :
  ¬ failure_keeps_rendered_subject (Demo.world Demo.env [Demo.eve] None Demo.accept).
Proof.
  intros H.
  specialize (H ∅ false None Demo.start Demo.eve
                "Header values may not contain linefeed or carriage return characters").
  assert (dispatched ∅ false Demo.eve) as Hd.
  { split; [by vm_compute|]. right. set_solver. }
  specialize (H Hd). vm_compute in H. specialize (H eq_refl). discriminate.
Qed.

(** C5, amended: a dispatched recipient for which composition or the
    transport fails gets exactly one ledger record, with status [failed] and
    the error message; its subject is the rendered subject when the
    transport failed and the empty string whenever composition failed, also
    when it failed after the subject was rendered; the counter [sent] is
    unchanged and the loop goes on with the next recipient. *)
Theorem failed_dispatch_recorded_once (w : World) (already_sent : gset string)
    (resend : bool) (limit : option Z) (st : LoopState) (row : Row) (rows : list Row)
    (e : string) :
  dispatched already_sent resend row →
  dispatch_error w st row = Some e →
  let out := process_row w already_sent resend limit st row in
  let rec := sent_record (now w (length (default [] (ledger st)))) row
               (recorded_subject w row) "failed" e in
  appended out.1.2 = [rec]
  ∧ ledger out.1.1 = Some (default [] (ledger st) ++ [rec])
  ∧ sent out.1.1 = sent st
  ∧ send_loop w already_sent resend limit st (row :: rows)
    = ((send_loop w already_sent resend limit out.1.1 rows).1,
       out.1.2 :: (send_loop w already_sent resend limit out.1.1 rows).2).
Proof.
  intros Hd He. cbn zeta. rewrite send_loop_cons.
  unfold dispatch_error, recorded_subject in *.
  destruct (build_message w row) as [logs [[[msg subject] recipients]|e']] eqn:Hb.
  - destruct (smtp_send_message w (calls st) msg (SENDER_EMAIL w) recipients)
      as [u|e'] eqn:Hs; [done|]. injection He as ->.
    apply build_message_Ok_inv in Hb as Hsub. destruct Hsub as [-> _].
    rewrite (process_row_send_fails _ _ _ _ _ _ _ _ _ _ _ Hd Hb Hs). cbn [fst snd].
    change (BuildMessage row :: ?x) with ([BuildMessage row] ++ x).
    by rewrite !appended_app, appended_logged.
  - injection He as ->.
    rewrite (process_row_build_fails _ _ _ _ _ _ _ _ Hd Hb). cbn [fst snd].
    change (BuildMessage row :: ?x) with ([BuildMessage row] ++ x).
    by rewrite !appended_app, appended_logged.
Qed.

Lemma failed_dispatch_recorded_once_witness :
  let w := Demo.world Demo.env [Demo.ana; Demo.bob] None Demo.refuse in
  let out := process_row w ∅ false None Demo.start Demo.ana in
  let rec := sent_record (now w 0) Demo.ana "Hello Ana" "failed"
               "Connection unexpectedly closed" in
  appended out.1.2 = [rec]
  ∧ ledger out.1.1 = Some [rec]
  ∧ sent out.1.1 = 0
  ∧ send_loop w ∅ false None Demo.start [Demo.ana; Demo.bob]
    = ((send_loop w ∅ false None out.1.1 [Demo.bob]).1,
       out.1.2 :: (send_loop w ∅ false None out.1.1 [Demo.bob]).2).
Proof.
  intros w.
  refine (failed_dispatch_recorded_once w ∅ false None Demo.start Demo.ana [Demo.bob]
            "Connection unexpectedly closed" _ _).
  - split; [by vm_compute|]. right. set_solver.
  - vm_compute. reflexivity.
Defined.

(** ** Malformed recipients (C4) *)

(** C4: a row whose email is absent, empty after trimming or without an
    "@" costs one warning: no ledger record, no transport call, no call of
    [build_message]; the state of the loop is unchanged and the loop goes on
    with the rows that follow. *)
Theorem malformed_row_passed_over (w : World) (already_sent : gset string)
    (resend : bool) (limit : option Z) (st : LoopState) (row : Row) (rows : list Row) :
  malformed row →
  let out := process_row w already_sent resend limit st row in
  out = (st, [Logged WARNING ("[SKIP] invalid email: " +:+ sent_key row)], false)
  ∧ appended out.1.2 = []
  ∧ transports out.1.2 = 0%nat
  ∧ attempts out.1.2 = 0%nat
  ∧ send_loop w already_sent resend limit st (row :: rows)
    = ((send_loop w already_sent resend limit st rows).1,
       out.1.2 :: (send_loop w already_sent resend limit st rows).2).
Proof.
  intros Hm%malformed_not_well_formed. cbn zeta.
  rewrite send_loop_cons.
  by rewrite (process_row_malformed w already_sent resend limit st row Hm).
Qed.

Lemma malformed_row_passed_over_witness :
  let w := Demo.world Demo.env [Demo.bad; Demo.ana] None Demo.accept in
  let out := process_row w ∅ false None Demo.start Demo.bad in
  out = (Demo.start, [Logged WARNING "[SKIP] invalid email: bad"], false)
  ∧ appended out.1.2 = []
  ∧ transports out.1.2 = 0%nat
  ∧ attempts out.1.2 = 0%nat
  ∧ send_loop w ∅ false None Demo.start [Demo.bad; Demo.ana]
    = ((send_loop w ∅ false None Demo.start [Demo.ana]).1,
       out.1.2 :: (send_loop w ∅ false None Demo.start [Demo.ana]).2).
Proof.
  intros w.
  refine (malformed_row_passed_over w ∅ false None Demo.start Demo.bad [Demo.ana] _).
  apply (email_no_at _ "bad"); reflexivity.
Defined.

(** C3 at [limit=0]: the test of the limit comes after a send, so the first
    eligible recipient is served (one transport call, one [success] record,
    [sent = 1]) before the loop stops. *)
Theorem limit_zero_still_sends :
  let w := Demo.world Demo.env [Demo.ana; Demo.bob] None Demo.accept in
  ∃ run, send_batch w false (Some 0) = Ok run
    ∧ sent_total run = 1
    ∧ transports (row_events (trace run) 0) = 1%nat
    ∧ successes (row_events (trace run) 0) = 1%nat
    ∧ length (trace run) = 1%nat.
Proof.
  intros w. exists (Demo.run_of (send_batch w false (Some 0))).
  repeat split; vm_compute; reflexivity.
Qed.

(** The example of the design document: [limit=1] and two unsent valid
    recipients give one [success] record, and the second recipient is not
    entered. *)
Example limit_one_of_two :
  let w := Demo.world Demo.env [Demo.ana; Demo.bob] None Demo.accept in
  ∃ run, send_batch w false (Some 1) = Ok run
    ∧ sum_list (successes <$> trace run) = 1%nat
    ∧ length (default [] (ledger_after run)) = 1%nat
    ∧ row_events (trace run) 1 = [].
Proof.
  intros w. exists (Demo.run_of (send_batch w false (Some 1))).
  repeat split; vm_compute; reflexivity.
Qed.

(** ** Replay of the ledger (C2) *)



(** ** The default language (C6) *)

Lemma blank_lang_normalised (row : Row) :
  row_get row "lang" = None ∨ (∃ s, row_get row "lang" = Some s ∧ is_blank s = true) →
  build_message_lang row = "en" ∨ build_message_lang row = "".
Proof.
  unfold build_message_lang, get_or.
  intros [->|(s & -> & Hs)]; [by left|].
  destruct (PyStr.truthy s); [|by left].
  right. by rewrite (strip_blank _ Hs).
Qed.

(** The language that [load_templates] returns is the one it normalised. *)
Lemma load_templates_lang w lang row subject_text body_text html_text lang' :
  load_templates w lang row = Ok (subject_text, body_text, html_text, lang') →
  lang' = (load_templates_paths w lang row).1.1.1.
Proof.
  unfold load_templates.
  destruct (load_templates_paths w lang row) as [[[l p1] p2] p3]. cbn [fst].
  destruct (negb (isfile w p1)); [done|].
  destruct (negb (isfile w p2)); [done|].
  destruct (read_text w p1) as [s1|]; [|done].
  destruct (read_text w p2) as [s2|]; [|done].
  destruct (isfile w p3); [destruct (read_text w p3) as [s3|]; [|done]|];
    cbn; by intros [= _ _ _ ->].
Qed.

(** C6: for a row whose language tag is absent or blank (whitespace only
    included), the language that [build_message] hands to [load_templates]
    is resolved to "en": the subject, body and html body are looked up under
    the template root joined with "en" (unless the row overrides a path),
    and "en" is the language [load_templates] returns. *)
Theorem blank_language_defaults_to_en (w : World) (row : Row) :
  row_get row "lang" = None ∨ (∃ s, row_get row "lang" = Some s ∧ is_blank s = true) →
  let lang_dir := PyPath.join (TEMPLATE_ROOT w) "en" in
  load_templates_paths w (build_message_lang row) row
  = ("en",
     PyStr.strip (get_or row "subject_file" (PyPath.join lang_dir "subject.txt")),
     PyStr.strip (get_or row "body_file" (PyPath.join lang_dir "body.txt")),
     PyStr.strip (get_or row "body_html_file" (PyPath.join lang_dir "body.html")))
  ∧ ∀ subject_text body_text html_text lang,
      load_templates w (build_message_lang row) row
      = Ok (subject_text, body_text, html_text, lang) →
      lang = "en".
Proof.
  intros H%blank_lang_normalised. cbn zeta.
  assert (load_templates_paths w (build_message_lang row) row
          = load_templates_paths w "en" row) as Hp.
  { by destruct H as [->| ->]. }
  split; [by rewrite Hp|].
  intros subject_text body_text html_text lang Hl.
  apply load_templates_lang in Hl. by rewrite Hl, Hp.
Qed.

Lemma blank_language_defaults_to_en_witness :
  let w := Demo.world Demo.env [] None Demo.accept in
  let row : Row := {[ "email" := Some "b@x.com"; "lang" := Some "   " ]} in
  load_templates_paths w (build_message_lang row) row
  = ("en", "templates/en/subject.txt", "templates/en/body.txt", "templates/en/body.html")
  ∧ ∀ subject_text body_text html_text lang,
      load_templates w (build_message_lang row) row
      = Ok (subject_text, body_text, html_text, lang) →
      lang = "en".
Proof.
  intros w row.
  refine (blank_language_defaults_to_en w row _).
  right. exists "   ". split; reflexivity.
Defined.

(** ** Attachment patterns (C8, C10) *)

Lemma sorted_nil_iff (l : list string) : sorted l = [] ↔ l = [].
Proof.
  unfold sorted. split.
  - intros H. apply Permutation_nil_r. rewrite <- H.
    symmetry. apply merge_sort_Permutation.
  - by intros ->.
Qed.

(** The loop over the patterns gathers the per-pattern matches in pattern
    order and warns about each pattern without a match. *)
Lemma expand_patterns_spec w (parts : list string) :
  expand_patterns w parts
  = ((λ pat, (WARNING, "[ATTACH] pattern matched nothing: " +:+ pat))
       <$> filter (λ pat, glob w pat = []) parts,
     Ok (concat ((λ pat, filter (λ m, isfile w m) (sorted (glob w pat))) <$> parts))).
Proof.
  induction parts as [|pat parts IH]; [done|].
  cbn [expand_patterns]. rewrite IH. clear IH.
  rewrite (fmap_cons _ pat parts). cbn [concat].
  destruct (decide (glob w pat = [])) as [Hg|Hg].
  - rewrite filter_cons_True by done. rewrite Hg.
    rewrite bool_decide_eq_false_2 by (intros H; by apply H).
    unfold mbind, Eff_bind, log, mret, Eff_ret. cbn. by rewrite app_nil_r.
  - rewrite filter_cons_False by done.
    rewrite bool_decide_eq_true_2 by (by rewrite sorted_nil_iff).
    unfold mbind, Eff_bind, log, mret, Eff_ret. cbn. by rewrite app_nil_r.
Qed.

Lemma first_index_is_Some (p : string) (l : list string) :
  p ∈ l → is_Some (first_index p l).
Proof.
  induction l as [|x l IH]; [by intros ?%elem_of_nil|].
  intros Hin. simpl. destruct (decide (x = p)) as [|Hne]; [by eexists|].
  apply elem_of_cons in Hin as [->|Hin]; [done|].
  destruct (IH Hin) as [a ->]. by eexists.
Qed.

Lemma first_seen_before_cons x files p q :
  x ≠ p → x ≠ q → first_seen_before files p q → first_seen_before (x :: files) p q.
Proof.
  intros Hp Hq (a & b & Ha & Hb & Hlt). exists (S a), (S b). simpl.
  rewrite !decide_False by done. rewrite Ha, Hb.
  split; [done|]. split; [done|]. lia.
Qed.

(** The loop of lines 100-105, from any point on: what it adds to [uniq]
    are the files not seen so far, once each, by first occurrence. *)
Lemma uniq_loop_inv (files : list string) :
  ∀ (acc : list string) (seen : gset string),
    (∀ x, x ∈ seen ↔ x ∈ acc) →
    ∃ tail, uniq_loop acc seen files = acc ++ tail
      ∧ NoDup tail
      ∧ (∀ p, p ∈ tail ↔ p ∈ files ∧ p ∉ acc)
      ∧ (∀ i j p q, tail !! i = Some p → tail !! j = Some q → (i < j)%nat →
           first_seen_before files p q).
Proof.
  induction files as [|f files IH]; intros acc seen Hseen.
  { exists []. simpl. rewrite app_nil_r.
    split; [done|]. split; [constructor|]. split.
    - intros p. split; [by intros ?%elem_of_nil|by intros [?%elem_of_nil _]].
    - by intros i j p q ?. }
  simpl. case_bool_decide as Hf.
  - destruct (IH acc seen Hseen) as (tail & -> & Hnd & Hin & Hord).
    apply Hseen in Hf.
    assert (∀ p, p ∈ tail → f ≠ p) as Hne.
    { intros p [_ Hp]%Hin ->. done. }
    exists tail. split; [done|]. split; [done|]. split.
    + intros p. split.
      * intros [Hp Hacc]%Hin. split; [by right|done].
      * intros [[->|Hp]%elem_of_cons Hacc]; [done|]. by apply Hin.
    + intros i j p q Hi Hj Hlt. apply first_seen_before_cons.
      * apply Hne. by eapply list_elem_of_lookup_2.
      * apply Hne. by eapply list_elem_of_lookup_2.
      * by eapply Hord.
  - assert (f ∉ acc) as Hfacc by (by rewrite <- Hseen).
    destruct (IH (acc ++ [f]) ({[f]} ∪ seen)) as (tail & -> & Hnd & Hin & Hord).
    { intros x. rewrite elem_of_union, elem_of_singleton, elem_of_app, Hseen.
      rewrite list_elem_of_singleton. tauto. }
    assert (∀ p, p ∈ tail → p ∈ files ∧ f ≠ p) as Hne.
    { intros p [Hp Hn]%Hin. split; [done|]. intros ->. apply Hn.
      apply elem_of_app. right. by apply list_elem_of_singleton. }
    exists (f :: tail). rewrite <- app_assoc.
    split; [done|]. split; [|split].
    + constructor; [|done]. intros Hft. by destruct (Hne f Hft).
    + intros p. split.
      * intros [->|Hp]%elem_of_cons; [split; [by left|done]|].
        apply Hin in Hp as [Hp Hn]. split; [by right|].
        intros Hacc. apply Hn, elem_of_app. by left.
      * intros [Hp Hacc]. destruct (decide (p = f)) as [->|Hpf]; [by left|].
        right. apply Hin. apply elem_of_cons in Hp as [?|Hp]; [done|].
        split; [done|]. rewrite elem_of_app, list_elem_of_singleton. tauto.
    + intros i j p q Hi Hj Hlt.
      destruct j as [|j]; [lia|]. simpl in Hj.
      apply list_elem_of_lookup_2 in Hj as Hq. apply Hne in Hq as [Hq Hfq].
      destruct i as [|i].
      * injection Hi as <-.
        destruct (first_index_is_Some q files Hq) as [b Hb].
        exists 0%nat, (S b). simpl.
        rewrite decide_True by done. rewrite decide_False by done.
        rewrite Hb. split; [done|]. split; [done|]. lia.
      * simpl in Hi. apply list_elem_of_lookup_2 in Hi as Hp.
        apply Hne in Hp as [_ Hfp].
        apply first_seen_before_cons; [done..|].
        eapply Hord; [done..|lia].
Qed.

(** What [expand_attachments] returns, in one equation. *)
Lemma expand_attachments_eq w (value : string) :
  expand_attachments w value
  = (pattern_warnings w value, Ok (uniq_loop [] ∅ (pattern_matches w value))).
Proof.
  unfold expand_attachments, pattern_warnings, pattern_matches.
  destruct value as [|c value]; [done|]. cbn [PyStr.truthy negb].
  rewrite expand_patterns_spec.
  unfold mbind, Eff_bind, mret, Eff_ret. cbn. by rewrite app_nil_r.
Qed.

(** C8: the resolved list is the list of the per-pattern matches that are
    regular files, taken in pattern order, with every path kept once at its
    first occurrence: no path is repeated, the paths are those of the
    matches, and two paths come out in the order of their first occurrences.
    A pattern without a match adds a warning and no file, and the function
    never raises. *)
Theorem expand_attachments_first_seen (w : World) (value : string) :
  ∃ uniq, expand_attachments w value = (pattern_warnings w value, Ok uniq)
    ∧ NoDup uniq
    ∧ (∀ p, p ∈ uniq ↔ p ∈ pattern_matches w value)
    ∧ (∀ i j p q, uniq !! i = Some p → uniq !! j = Some q → (i < j)%nat →
         first_seen_before (pattern_matches w value) p q)
    ∧ (∀ pat, pat ∈ split_list value → glob w pat = [] →
         filter (λ m, isfile w m) (sorted (glob w pat)) = []
         ∧ (WARNING, "[ATTACH] pattern matched nothing: " +:+ pat)
             ∈ pattern_warnings w value).
Proof.
  rewrite expand_attachments_eq.
  destruct (uniq_loop_inv (pattern_matches w value) [] ∅) as (tail & Heq & Hnd & Hin & Hord).
  { intros x. split; [by intros ?%elem_of_empty|by intros ?%elem_of_nil]. }
  simpl in Heq. exists tail. rewrite Heq.
  split; [done|]. split; [done|]. split; [|split; [done|]].
  - intros p. rewrite Hin. split; [by intros [? _]|].
    intros ?. split; [done|]. by intros ?%elem_of_nil.
  - intros pat Hpat Hg. split; [by rewrite Hg|].
    unfold pattern_warnings. apply list_elem_of_fmap.
    exists pat. split; [done|]. by apply list_elem_of_filter.
Qed.

(** C10: the loop compares the spellings of the paths: in a world where
    "a.txt" is a regular file that [glob] returns under the spelling it is
    given, the patterns "a.txt" and "./a.txt" resolve to the same file twice. *)
Theorem same_file_under_two_spellings :
  ∃ (w : World) (p q : string),
    q = "./" +:+ p ∧ p ≠ q
    ∧ glob w p = [p] ∧ glob w q = [q]
    ∧ isfile w p = true ∧ isfile w q = true
    ∧ expand_attachments w (p +:+ ", " +:+ q) = ([], Ok [p; q]).
Proof.
  exists (Demo.shelf Demo.env), "a.txt", "./a.txt".
  repeat split; try done; vm_compute; reflexivity.
Qed.

Lemma expand_attachments_first_seen_witness :
  let w := Demo.shelf Demo.env in
  ∃ uniq, expand_attachments w "a.txt; missing*, a.txt"
          = ([(WARNING, "[ATTACH] pattern matched nothing: missing*")], Ok uniq)
    ∧ NoDup uniq ∧ (∀ p, p ∈ uniq ↔ p ∈ ["a.txt"; "a.txt"]).
Proof.
  intros w.
  destruct (expand_attachments_first_seen w "a.txt; missing*, a.txt")
    as (uniq & Heq & Hnd & Hin & _).
  exists uniq. split; [exact Heq|]. split; [exact Hnd|exact Hin].
Defined.

(** ** The per-language directory (C7) *)




(** ** Blind copies (C9) *)

Lemma del_header_gone (msg : EmailMessage) (name : string) :
  get_header (del_header msg name) name = None
  ∧ ∀ h, h ∈ headers (del_header msg name) → PyStr.lower h.1 ≠ PyStr.lower name.
Proof.
  assert (∀ h, h ∈ headers (del_header msg name) → PyStr.lower h.1 ≠ PyStr.lower name) as H.
  { intros h Hh%list_elem_of_In. simpl in Hh. apply List.filter_In in Hh as [_ Hh].
    apply negb_true_iff in Hh. unfold same_name in Hh.
    by apply bool_decide_eq_false in Hh. }
  split; [|done]. unfold get_header.
  destruct (List.find _ _) as [h|] eqn:Hfind; [|done].
  apply List.find_some in Hfind as [Hin Hsame]. exfalso.
  apply list_elem_of_In, H in Hin. unfold same_name in Hsame.
  by apply bool_decide_eq_true in Hsame.
Qed.

Lemma truthy_true_iff (s : string) : PyStr.truthy s = true ↔ s ≠ "".
Proof. by destruct s. Qed.

(** The addresses of a cc or bcc field: the parts between commas and
    semicolons, trimmed, the empty ones dropped. *)
Lemma elem_of_address_list (field a : string) :
  a ∈ address_list field
  ↔ a ≠ "" ∧ ∃ part, part ∈ PyStr.split "," (PyStr.replace ";" "," field)
                     ∧ a = PyStr.strip part.
Proof.
  unfold address_list, split_list. rewrite list_elem_of_omap. split.
  - intros (part & Hin & Hf). destruct (PyStr.truthy (PyStr.strip part)) eqn:Ht; [|done].
    injection Hf as <-. split; [by apply truthy_true_iff|]. by exists part.
  - intros (Ha & part & Hin & ->). exists part. split; [done|].
    by rewrite (proj2 (truthy_true_iff _) Ha).
Qed.

(** C9: for a row with a non-empty bcc field, the message that composition
    returns has no Bcc header, and the transport recipients are the primary
    address, then the cc addresses, then every trimmed non-empty bcc
    address. *)
Theorem bcc_only_in_recipients (w : World) (row : Row) (logs : list (Level * string))
    (msg : EmailMessage) (subject : string) (recipients : list string) :
  row_truthy row "bcc" = true →
  build_message w row = (logs, Ok (msg, subject, recipients)) →
  get_header msg "Bcc" = None
  ∧ (∀ name value, (name, value) ∈ headers msg → PyStr.lower name ≠ "bcc")
  ∧ recipients
    = [sent_key row]
      ++ (if row_truthy row "cc" then address_list (get_or row "cc" "") else [])
      ++ address_list (get_or row "bcc" "")
  ∧ (∀ a, a ∈ address_list (get_or row "bcc" "")
       ↔ a ≠ "" ∧ ∃ part, part ∈ PyStr.split "," (PyStr.replace ";" "," (get_or row "bcc" ""))
                          ∧ a = PyStr.strip part).
Proof.
  intros Hbcc (_ & msg0 & Hr)%build_message_Ok_inv.
  unfold build_message_recipients in Hr. rewrite Hbcc in Hr.
  injection Hr as -> ->.
  destruct (del_header_gone msg0 "Bcc") as [Hget Hall].
  split; [done|]. split; [|split].
  - intros name value Hin. exact (Hall (name, value) Hin).
  - destruct (row_truthy row "cc"); by rewrite <- ?app_assoc.
  - intros a. apply elem_of_address_list.
Qed.

Lemma bcc_only_in_recipients_witness :
  let w := Demo.world Demo.env [Demo.zoe] None Demo.accept in
  let msg := (Demo.built (build_message w Demo.zoe)).1.1 in
  let recipients := (Demo.built (build_message w Demo.zoe)).2 in
  get_header msg "Bcc" = None
  ∧ get_header msg "Cc" = Some "c@x.com"
  ∧ recipients = ["z@x.com"; "c@x.com"; "h1@x.com"; "h2@x.com"].
Proof.
  intros w msg recipients.
  destruct (bcc_only_in_recipients w Demo.zoe [] msg "Hello Zoe" recipients)
    as (Hget & _ & Hrcpt & _).
  - vm_compute. reflexivity.
  - vm_compute. reflexivity.
  - split; [exact Hget|]. split; [vm_compute; reflexivity|].
    rewrite Hrcpt. vm_compute. reflexivity.
Defined.

(** * Further properties of the code *)

(** ** Trimming *)

Abbreviation chars := String.list_ascii_of_string.

Lemma chars_inj s1 s2 : chars s1 = chars s2 → s1 = s2.
Proof.
  intros H. rewrite <- (String.string_of_list_ascii_of_string s1).
  rewrite <- (String.string_of_list_ascii_of_string s2). by rewrite H.
Qed.

Lemma chars_app s1 s2 : chars (s1 +:+ s2) = chars s1 ++ chars s2.
Proof. induction s1 as [|c s1 IH]; [done|]. cbn. by rewrite <- IH. Qed.

Lemma chars_rev_app s1 s2 : chars (String.rev_app s1 s2) = List.rev (chars s1) ++ chars s2.
Proof.
  revert s2. induction s1 as [|c s1 IH]; intros s2; [done|].
  cbn. rewrite IH. cbn. by rewrite <- app_assoc.
Qed.

Lemma chars_rev s : chars (String.rev s) = List.rev (chars s).
Proof. unfold String.rev. rewrite chars_rev_app. apply app_nil_r. Qed.

Lemma string_rev_involutive s : String.rev (String.rev s) = s.
Proof. apply chars_inj. by rewrite !chars_rev, rev_involutive. Qed.

Lemma string_rev_app s1 s2 :
  String.rev (s1 +:+ s2) = String.rev s2 +:+ String.rev s1.
Proof. apply chars_inj. by rewrite chars_rev, !chars_app, !chars_rev, rev_app_distr. Qed.

Lemma lstrip_clean s : clean_head (PyStr.lstrip s).
Proof.
  induction s as [|c s IH]; [done|]. simpl.
  by destruct (PyStr.isspace c) eqn:E.
Qed.

Lemma lstrip_id s : clean_head s → PyStr.lstrip s = s.
Proof. destruct s as [|c s]; [done|]. simpl. by intros ->. Qed.

Lemma lstrip_suffix s : ∃ p, s = p +:+ PyStr.lstrip s.
Proof.
  induction s as [|c s [p IH]]; [by exists ""|]. simpl.
  destruct (PyStr.isspace c).
  - exists (String c p). change (String c s = String c (p +:+ PyStr.lstrip s)).
    by rewrite <- IH.
  - by exists "".
Qed.

(** What [strip] returns has nothing left to trim on either side. *)
Lemma strip_clean s :
  clean_head (PyStr.strip s) ∧ clean_head (String.rev (PyStr.strip s)).
Proof.
  unfold PyStr.strip, PyStr.rstrip.
  set (t := PyStr.lstrip s). set (u := PyStr.lstrip (String.rev t)).
  split; [|rewrite string_rev_involutive; apply lstrip_clean].
  destruct (lstrip_suffix (String.rev t)) as [p Hp]. fold u in Hp.
  apply (f_equal String.rev) in Hp.
  rewrite string_rev_involutive, string_rev_app in Hp.
  pose proof (lstrip_clean s) as Ht. fold t in Ht. rewrite Hp in Ht.
  by destruct (String.rev u).
Qed.

Lemma strip_id s :
  clean_head s → clean_head (String.rev s) → PyStr.strip s = s.
Proof.
  intros H1 H2. unfold PyStr.strip, PyStr.rstrip.
  by rewrite (lstrip_id s H1), (lstrip_id _ H2), string_rev_involutive.
Qed.

Lemma strip_idempotent s : PyStr.strip (PyStr.strip s) = PyStr.strip s.
Proof. destruct (strip_clean s). by apply strip_id. Qed.

(** ** The ledger: what is written is read back *)

Lemma sent_record_email time row subject status error :
  row_get (sent_record time row subject status error) "email" = Some (sent_key row).
Proof. unfold row_get, sent_record. by simplify_map_eq. Qed.

Lemma sent_record_key time row subject status error :
  sent_key (sent_record time row subject status error) = sent_key row.
Proof.
  unfold sent_key at 1. unfold get_or. rewrite sent_record_email.
  destruct (PyStr.truthy (sent_key row)) eqn:E.
  - apply strip_idempotent.
  - destruct (sent_key row); done.
Qed.


(** ** The ledger during a run *)

Lemma extend_extend file recs1 recs2 :
  extend (extend file recs1) recs2 = extend file (recs1 ++ recs2).
Proof.
  destruct recs1 as [|r1 recs1]; [done|].
  destruct recs2 as [|r2 recs2]; [by rewrite app_nil_r|].
  cbn. by rewrite <- app_assoc.
Qed.

Lemma sleeps_app evs1 evs2 : sleeps (evs1 ++ evs2) = (sleeps evs1 + sleeps evs2)%nat.
Proof. unfold sleeps. by rewrite List.filter_app, length_app. Qed.

Lemma sleeps_logged logs : sleeps (uncurry Logged <$> logs) = 0%nat.
Proof. induction logs as [|[??] logs IH]; [done|]. exact IH. Qed.

(** One turn of the loop writes at most one record: none when the row is
    not dispatched, else one for that row, a [success] one followed by a
    pause, or a [failed] one without a pause. *)
Lemma process_row_appended w already_sent resend limit st row :
  let out := process_row w already_sent resend limit st row in
  ledger out.1.1 = extend (ledger st) (appended out.1.2)
  ∧ sleeps out.1.2 = successes out.1.2
  ∧ (appended out.1.2 = []
     ∨ dispatched already_sent resend row
       ∧ ∃ subject status error,
           appended out.1.2
           = [sent_record (now w (length (default [] (ledger st)))) row subject status error]
           ∧ (status = "success" ∨ status = "failed")).
Proof.
  cbn zeta.
  destruct (decide (dispatched already_sent resend row)) as [Hd|Hn].
  2: { apply (process_row_not_dispatched w already_sent resend limit st) in Hn.
       destruct Hn as (-> & _ & Hat & _ & Ha). rewrite Ha.
       split; [done|]. split; [|by left].
       unfold successes. rewrite Ha. cbn.
       destruct (well_formed row) eqn:Hw.
       - destruct (decide (resend = true ∨ sent_key row ∉ already_sent)) as [Hg|Hg].
         { exfalso. (* the row would be dispatched *)
           assert (dispatched already_sent resend row) as Hd by done.
           destruct (process_row_dispatched w already_sent resend limit st row Hd)
             as (Hone & _). rewrite Hat in Hone. done. }
         assert (resend = false) as Hr by (destruct resend; [exfalso; auto|done]).
         assert (sent_key row ∈ already_sent) as Hin.
         { destruct (decide (sent_key row ∈ already_sent)); [done|]. exfalso. auto. }
         by rewrite (process_row_skip w already_sent resend limit st row Hw Hr Hin).
       - by rewrite (process_row_malformed w already_sent resend limit st row Hw). }
  destruct (build_message w row) as [logs [[[msg subject] recipients]|e]] eqn:Hb.
  2: { rewrite (process_row_build_fails _ _ _ _ _ _ _ _ Hd Hb). cbn [fst snd ledger].
       change (BuildMessage row :: ?x) with ([BuildMessage row] ++ x).
       rewrite !appended_app, appended_logged, !sleeps_app, sleeps_logged.
       rewrite !successes_app, successes_logged.
       unfold successes. cbn.
       rewrite sent_record_status, bool_decide_eq_false_2 by done.
       split; [done|]. split; [done|]. right. split; [done|]. eauto 10. }
  destruct (smtp_send_message w (calls st) msg (SENDER_EMAIL w) recipients)
    as [u|e] eqn:Hs.
  2: { rewrite (process_row_send_fails _ _ _ _ _ _ _ _ _ _ _ Hd Hb Hs).
       cbn [fst snd ledger].
       change (BuildMessage row :: ?x) with ([BuildMessage row] ++ x).
       rewrite !appended_app, appended_logged, !sleeps_app, sleeps_logged.
       rewrite !successes_app, successes_logged.
       unfold successes. cbn.
       rewrite sent_record_status, bool_decide_eq_false_2 by done.
       split; [done|]. split; [done|]. right. split; [done|]. eauto 10. }
  rewrite (process_row_sent _ _ _ _ _ _ _ _ _ _ _ Hd Hb Hs). cbn [fst snd ledger].
  change (BuildMessage row :: ?x) with ([BuildMessage row] ++ x).
  rewrite !appended_app, appended_logged, !sleeps_app, sleeps_logged.
  rewrite !successes_app, successes_logged.
  assert (∀ b text, appended (if b : bool then [Logged INFO text] else []) = []) as Ha
    by (by intros []).
  assert (∀ b text, sleeps (if b : bool then [Logged INFO text] else []) = 0%nat) as Hsl
    by (by intros []).
  assert (∀ b text, successes (if b : bool then [Logged INFO text] else []) = 0%nat) as Hsu
    by (by intros []).
  rewrite Ha, Hsl, Hsu. unfold successes. cbn.
  rewrite sent_record_status, bool_decide_eq_true_2 by done.
  split; [done|]. split; [done|]. right. split; [done|]. eauto 10.
Qed.

Lemma sum_list_sleeps_successes w already_sent resend limit st rows :
  let out := send_loop w already_sent resend limit st rows in
  ledger out.1 = extend (ledger st) (appended_by out.2)
  ∧ sum_list (sleeps <$> out.2) = sum_list (successes <$> out.2).
Proof.
  cbn zeta. revert st. induction rows as [|row rows IH]; intros st; [done|].
  rewrite send_loop_cons.
  destruct (process_row_appended w already_sent resend limit st row) as (Hl & Hs & _).
  destruct ((process_row w already_sent resend limit st row).2); cbn [fst snd].
  - unfold appended_by. cbn. rewrite app_nil_r, Hs. done.
  - destruct (IH (process_row w already_sent resend limit st row).1.1) as [IHl IHs].
    rewrite IHl, Hl, extend_extend. unfold appended_by.
    rewrite !fmap_cons. cbn [concat].
    change (sum_list (?x :: ?l)) with (x + sum_list l)%nat.
    by rewrite Hs, IHs.
Qed.

(** The records of a row entered by the loop carry the trimmed email of that
    row, which is well-formed, and the status [success] or [failed]. *)
Lemma send_loop_records w already_sent resend limit st rows i evs rec :
  (send_loop w already_sent resend limit st rows).2 !! i = Some evs →
  rec ∈ appended evs →
  ∃ row, rows !! i = Some row
    ∧ sent_key rec = sent_key row
    ∧ well_formed row = true
    ∧ (row_get rec "status" = Some "success" ∨ row_get rec "status" = Some "failed").
Proof.
  intros (st_i & row & Hrow & ->)%send_loop_lookup Hin.
  exists row. split; [done|].
  destruct (process_row_appended w already_sent resend limit st_i row)
    as (_ & _ & [Hnil|([Hw _] & subject & status & error & Heq & Hst)]).
  { rewrite Hnil in Hin. by apply elem_of_nil in Hin. }
  rewrite Heq in Hin. apply list_elem_of_singleton in Hin as ->.
  rewrite sent_record_key, sent_record_status.
  split; [done|]. split; [done|]. by destruct Hst as [-> | ->]; [left|right].
Qed.

(** X2: a run only appends to the ledger: the file after the run is the
    file before it followed by the records of the rows, in order; every
    such record carries a well-formed trimmed email and the status
    [success] or [failed]. *)
Theorem ledger_is_append_only (w : World) (resend : bool) (limit : option Z)
    (run : BatchRun) :
  send_batch w resend limit = Ok run →
  ledger_after run = extend (sent_csv w) (appended_by (trace run))
  ∧ default [] (sent_csv w) `prefix_of` default [] (ledger_after run)
  ∧ ∀ rec, rec ∈ appended_by (trace run) →
      PyStr.contains "@" (sent_key rec) = true
      ∧ (row_get rec "status" = Some "success" ∨ row_get rec "status" = Some "failed").
Proof.
  intros (rows & Hc & Htr & _ & Hl)%send_batch_inv. cbn zeta in *.
  destruct (sum_list_sleeps_successes w (already_sent_of (read_sent_index (sent_csv w)))
              resend limit {| sent := 0; ledger := sent_csv w; calls := 0 |} rows)
    as [Hled _]. cbn [ledger] in Hled.
  rewrite <- Htr, <- Hl in Hled.
  split; [done|]. split.
  - rewrite Hled. destruct (appended_by (trace run)); [done|]. by eexists.
  - intros rec (recs & Hrecs & Hin)%list_elem_of_In%in_concat.
    apply list_elem_of_In in Hrecs, Hin.
    apply list_elem_of_fmap in Hrecs as (evs & -> & Hevs).
    apply list_elem_of_lookup in Hevs as [i Hi]. rewrite Htr in Hi.
    destruct (send_loop_records _ _ _ _ _ _ _ _ _ Hi Hin) as (row & _ & -> & Hw & Hst).
    split; [|done]. unfold well_formed in Hw. by apply andb_true_iff in Hw as [_ ?].
Qed.

Lemma ledger_is_append_only_witness :
  let file := Some [Demo.event "a@x.com" "success"] in
  let w := Demo.world Demo.env [Demo.ana; Demo.bad; Demo.bob] file Demo.refuse in
  let run := Demo.run_of (send_batch w false None) in
  ledger_after run = extend file (appended_by (trace run))
  ∧ default [] file `prefix_of` default [] (ledger_after run)
  ∧ ∀ rec, rec ∈ appended_by (trace run) →
      PyStr.contains "@" (sent_key rec) = true
      ∧ (row_get rec "status" = Some "success" ∨ row_get rec "status" = Some "failed").
Proof.
  intros file w run.
  refine (ledger_is_append_only w false None run _).
  vm_compute. reflexivity.
Defined.

Lemma successes_appended_by (tr : list (list Event)) :
  sum_list (successes <$> tr)
  = length (List.filter (λ rec, bool_decide (row_get rec "status" = Some "success"))
              (appended_by tr)).
Proof.
  induction tr as [|evs tr IH]; [done|].
  unfold appended_by in *. rewrite !fmap_cons. cbn [concat].
  change (sum_list (?x :: ?l)) with (x + sum_list l)%nat.
  by rewrite List.filter_app, length_app, IH.
Qed.

(** X3: the number of messages a run reports as sent is the number of
    [success] records it appended to the ledger, and the number of pauses
    it made: a pause follows every successful send and nothing else. *)
Theorem sent_count_matches_ledger (w : World) (resend : bool) (limit : option Z)
    (run : BatchRun) :
  send_batch w resend limit = Ok run →
  sent_total run
  = Z.of_nat (length (List.filter
                        (λ rec, bool_decide (row_get rec "status" = Some "success"))
                        (appended_by (trace run))))
  ∧ sum_list (sleeps <$> trace run) = sum_list (successes <$> trace run)
  ∧ sent_total run = Z.of_nat (sum_list (sleeps <$> trace run)).
Proof.
  intros (rows & Hc & Htr & Hs & _)%send_batch_inv. cbn zeta in *.
  set (A := already_sent_of (read_sent_index (sent_csv w))) in *.
  set (st0 := {| sent := 0; ledger := sent_csv w; calls := 0 |}) in *.
  pose proof (send_loop_successes w A resend limit st0 rows) as Hsum.
  destruct (sum_list_sleeps_successes w A resend limit st0 rows) as [_ Hsl].
  cbn zeta in Hsum. rewrite <- Htr in Hsum, Hsl. rewrite <- Hs in Hsum.
  rewrite <- successes_appended_by, Hsl. cbn [sent st0] in Hsum.
  split; [lia|]. split; [done|lia].
Qed.

Lemma sent_count_matches_ledger_witness :
  let w := Demo.world Demo.env [Demo.ana; Demo.bad; Demo.bob] None
             (λ n, if (n =? 0)%nat then Raise "Mailbox unavailable" else Ok tt) in
  let run := Demo.run_of (send_batch w false None) in
  sent_total run
  = Z.of_nat (length (List.filter
                        (λ rec, bool_decide (row_get rec "status" = Some "success"))
                        (appended_by (trace run))))
  ∧ sum_list (sleeps <$> trace run) = sum_list (successes <$> trace run)
  ∧ sent_total run = Z.of_nat (sum_list (sleeps <$> trace run)).
Proof.
  intros w run.
  refine (sent_count_matches_ledger w false None run _).
  vm_compute. reflexivity.
Defined.



(** ** Running the batch again *)







(** ** Resend and the fatal preconditions *)





(** ** The composed message *)

Lemma set_header_Ok msg name value msg' :
  set_header msg name value = Ok msg' →
  headers msg' = headers msg ++ [(name, value)]
  ∧ content msg' = content msg
  ∧ alternative msg' = alternative msg
  ∧ attachments msg' = attachments msg
  ∧ (length (PyStr.splitlines value) ≤ 1)%nat.
Proof.
  unfold set_header. destruct (existsb _ _); [done|].
  case_bool_decide as Hl; [done|]. intros [= <-]. cbn.
  repeat split; try done. lia.
Qed.

(** The headers that lines 172-181 set, in order. *)
Lemma build_message_headers_Ok w row subject to_addr msg :
  build_message_headers w row subject to_addr = Ok msg →
  ∃ rest, headers msg
          = [("Subject", subject);
             ("From", SENDER_NAME w +:+ " <" +:+ str_of (SENDER_EMAIL w) +:+ ">");
             ("To", to_addr)] ++ rest
    ∧ content msg = None
    ∧ (length (PyStr.splitlines subject) ≤ 1)%nat
    ∧ (length (PyStr.splitlines to_addr) ≤ 1)%nat.
Proof.
  unfold build_message_headers.
  destruct (set_header empty_message "Subject" subject) as [m1|] eqn:H1; [|done].
  apply set_header_Ok in H1 as (Hh1 & Hc1 & _ & _ & Hs). cbn [mbind Result_bind].
  destruct (set_header m1 "From" _) as [m2|] eqn:H2; [|done].
  apply set_header_Ok in H2 as (Hh2 & Hc2 & _). cbn [mbind Result_bind].
  destruct (set_header m2 "To" to_addr) as [m3|] eqn:H3; [|done].
  apply set_header_Ok in H3 as (Hh3 & Hc3 & _ & _ & Ht). cbn [mbind Result_bind].
  assert (headers m3 = [("Subject", subject);
             ("From", SENDER_NAME w +:+ " <" +:+ str_of (SENDER_EMAIL w) +:+ ">");
             ("To", to_addr)] ∧ content m3 = None) as [Hh Hc].
  { rewrite Hh3, Hh2, Hh1, Hc3, Hc2, Hc1. done. }
  clear Hh1 Hh2 Hh3 Hc1 Hc2 Hc3.
  assert (∀ m (r : Result EmailMessage) m',
            (∃ rest, headers m = headers m3 ++ rest) ∧ content m = None →
            (r = Ok m ∨ ∃ n v, r = set_header m n v) → r = Ok m' →
            (∃ rest, headers m' = headers m3 ++ rest) ∧ content m' = None) as Hstep.
  { intros m r m' [[rest Hm] Hcm] [->|(n & v & ->)] Hr.
    - injection Hr as <-. eauto.
    - apply set_header_Ok in Hr as (Hh' & Hc' & _). rewrite Hh', Hc', Hm.
      split; [|done]. exists (rest ++ [(n, v)]). by rewrite app_assoc. }
  destruct (if row_truthy row "cc" then _ else _) as [m4|] eqn:H4; [|done].
  cbn [mbind Result_bind].
  destruct (if row_truthy row "bcc" then _ else _) as [m5|] eqn:H5; [|done].
  cbn [mbind Result_bind]. intros H6.
  assert ((∃ rest, headers m4 = headers m3 ++ rest) ∧ content m4 = None) as I4.
  { apply (Hstep m3 _ m4) in H4; [done| |].
    - split; [|done]. exists []. by rewrite app_nil_r.
    - destruct (row_truthy row "cc"); eauto. }
  assert ((∃ rest, headers m5 = headers m3 ++ rest) ∧ content m5 = None) as I5.
  { apply (Hstep m4 _ m5) in H5; [done|done|].
    destruct (row_truthy row "bcc"); eauto. }
  assert ((∃ rest, headers msg = headers m3 ++ rest) ∧ content msg = None)
    as [[rest Hrest] Hcm].
  { apply (Hstep m5 _ msg) in H6; [done|done|].
    destruct (DEFAULTS w !! "reply_to") as [r|]; [destruct (PyStr.truthy r)|]; eauto. }
  exists rest. rewrite Hrest, Hh. done.
Qed.

Lemma attach_file_Ok w msg path msg' :
  attach_file w msg path = Ok msg' →
  headers msg' = headers msg ∧ content msg' = content msg
  ∧ alternative msg' = alternative msg
  ∧ ∃ a, attachments msg' = attachments msg ++ [a]
         ∧ att_filename a = PyPath.basename path
         ∧ read_bytes w path = Ok (att_data a).
Proof.
  unfold attach_file. destruct (guess_type w path) as [ctype encoding].
  destruct (split_once _) as [[maintype subtype]|]; [|done].
  destruct (read_bytes w path) as [data|]; [|done]. cbn.
  intros [= <-]. cbn. repeat split; try done. by eexists.
Qed.

Lemma attach_files_spec (w : World) (msg : EmailMessage) (files : list string) :
  ∃ logs msg',
    attach_files w msg files = (logs, Ok msg')
    ∧ headers msg' = headers msg
    ∧ content msg' = content msg
    ∧ alternative msg' = alternative msg
    ∧ (∃ added, attachments msg' = attachments msg ++ added
         ∧ (length added + length logs = length files)%nat
         ∧ ∀ a, a ∈ added →
             ∃ path, path ∈ files ∧ att_filename a = PyPath.basename path
                     ∧ read_bytes w path = Ok (att_data a))
    ∧ ∀ l, l ∈ logs → l.1 = WARNING.
Proof.
  revert msg. induction files as [|path files IH]; intros msg.
  { exists [], msg. cbn. repeat split; try done.
    - exists []. rewrite app_nil_r. repeat split; try done. by intros a ?%elem_of_nil.
    - by intros l ?%elem_of_nil. }
  cbn [attach_files].
  destruct (attach_file w msg path) as [m1|e] eqn:Ha.
  - apply attach_file_Ok in Ha as (Hh & Hc & Hal & a & Hat & Hname & Hdata).
    destruct (IH m1) as (logs & msg' & Heq & Hh' & Hc' & Hal' & (added & Hadd & Hlen & Hin) & Hw).
    exists logs, msg'. unfold mbind, Eff_bind, mret, Eff_ret. rewrite Heq. cbn.
    split; [done|]. split; [congruence|]. split; [congruence|]. split; [congruence|].
    split; [|done].
    exists (a :: added). rewrite Hadd, Hat, <- app_assoc. split; [done|].
    split; [cbn; lia|].
    intros a' [->|Ha']%elem_of_cons.
    + exists path. split; [by left|done].
    + destruct (Hin a' Ha') as (p & ? & ?). exists p. split; [by right|done].
  - destruct (IH msg) as (logs & msg' & Heq & Hh' & Hc' & Hal' & (added & Hadd & Hlen & Hin) & Hw).
    exists ((WARNING, "[ATTACH-ERR] " +:+ path +:+ ": " +:+ e) :: logs), msg'.
    unfold mbind, Eff_bind, mret, Eff_ret, log. cbn. rewrite Heq. cbn.
    split; [done|]. split; [done|]. split; [done|]. split; [done|]. split.
    + exists added. split; [done|]. split; [cbn; lia|].
      intros a' Ha'. destruct (Hin a' Ha') as (p & ? & ?). exists p. split; [by right|done].
    + intros l [->|Hl]%elem_of_cons; [done|]. by apply Hw.
Qed.

(** X8: a file that cannot be attached never fails the composition: the
    loop of lines 190-194 always returns, leaves the headers and the bodies
    as they are, and for each file either adds one attachment, named after
    the last component of the path and holding the bytes read, or logs one
    warning. *)
Theorem attach_files_never_raises (w : World) (msg : EmailMessage)
    (files : list string) :
  ∃ logs msg',
    attach_files w msg files = (logs, Ok msg')
    ∧ headers msg' = headers msg
    ∧ content msg' = content msg
    ∧ alternative msg' = alternative msg
    ∧ (∃ added, attachments msg' = attachments msg ++ added
         ∧ (length added + length logs = length files)%nat
         ∧ ∀ a, a ∈ added →
             ∃ path, path ∈ files ∧ att_filename a = PyPath.basename path
                     ∧ read_bytes w path = Ok (att_data a))
    ∧ ∀ l, l ∈ logs → l.1 = WARNING.
Proof. apply attach_files_spec. Qed.

Lemma get_header_del_other (msg : EmailMessage) (name other : string) :
  PyStr.lower name ≠ PyStr.lower other →
  get_header (del_header msg other) name = get_header msg name.
Proof.
  intros Hne. unfold get_header, del_header. cbn. f_equal.
  induction (headers msg) as [|h hs IH]; [done|]. cbn.
  destruct (same_name other h) eqn:Ho; cbn.
  - assert (same_name name h = false) as ->; [|done].
    unfold same_name in *. apply bool_decide_eq_true in Ho.
    apply bool_decide_eq_false_2. congruence.
  - by rewrite IH.
Qed.

Lemma contains_replace (old new : ascii) (s : string) :
  old ≠ new → PyStr.contains old (PyStr.replace old new s) = false.
Proof.
  intros Hne. induction s as [|c s IH]; [done|]. cbn. rewrite IH, orb_false_r.
  destruct (Ascii.eqb c old) eqn:E.
  - apply Ascii.eqb_neq. congruence.
  - done.
Qed.

(** The parts of a successful composition. *)
Lemma build_message_Ok_parts w row logs msg subject recipients :
  build_message w row = (logs, Ok (msg, subject, recipients)) →
  well_formed row = true
  ∧ ∃ m1 m2 body,
      build_message_headers w row subject (sent_key row) = Ok m1
      ∧ headers m2 = headers m1
      ∧ content m2 = Some body
      ∧ (msg, recipients) = build_message_recipients row (sent_key row) m2.
Proof.
  unfold build_message, well_formed. fold (sent_key row).
  destruct (PyStr.truthy (sent_key row)); [|done].
  destruct (PyStr.contains "@" (sent_key row)); [|done]. cbn [negb orb andb].
  intros (l1 & [[[subject_tpl body_txt] body_html] lang] & l2 & _ & H & ->)%eff_bind_Ok.
  apply eff_bind_Ok in H as (l3 & m1 & l4 & Hh & H & ->).
  unfold lift in Hh. injection Hh as <- Hh.
  apply eff_bind_Ok in H as (l5 & files & l6 & _ & H & ->).
  apply eff_bind_Ok in H as (l7 & m2 & l8 & Hatt & H & ->).
  destruct (build_message_recipients row (sent_key row) m2) as [m3 rcpts] eqn:Hr.
  injection H as <- <- <- <-. split; [done|].
  destruct (attach_files_spec w
              (match body_html with
               | Some html => if PyStr.truthy html
                              then add_alternative
                                     (set_content m1 (render body_txt (build_message_mapping w row)))
                                     (render html (build_message_mapping w row))
                              else set_content m1 (render body_txt (build_message_mapping w row))
               | None => set_content m1 (render body_txt (build_message_mapping w row))
               end) files) as (logs' & m2' & Heq & Hh' & Hc' & _).
  rewrite Heq in Hatt. injection Hatt as _ <-.
  exists m1, m2', (render body_txt (build_message_mapping w row)).
  split; [done|]. split; [|split; [|done]].
  - rewrite Hh'. by destruct body_html as [html|]; [destruct (PyStr.truthy html)|].
  - rewrite Hc'. by destruct body_html as [html|]; [destruct (PyStr.truthy html)|].
Qed.

(** What a successful composition returns. *)
Lemma build_message_Ok_spec (w : World) (row : Row)
    (logs : list (Level * string)) (msg : EmailMessage) (subject : string)
    (recipients : list string) :
  build_message w row = (logs, Ok (msg, subject, recipients)) →
  well_formed row = true
  ∧ get_header msg "To" = Some (sent_key row)
  ∧ head recipients = Some (sent_key row)
  ∧ get_header msg "Subject" = Some subject
  ∧ get_header msg "From"
    = Some (SENDER_NAME w +:+ " <" +:+ str_of (SENDER_EMAIL w) +:+ ">")
  ∧ (length (PyStr.splitlines subject) ≤ 1)%nat
  ∧ PyStr.contains "010" subject = false
  ∧ is_Some (content msg).
Proof.
  intros Hb.
  destruct (build_message_Ok_inv _ _ _ _ _ _ Hb) as [Hsub _].
  destruct (build_message_Ok_parts _ _ _ _ _ _ Hb)
    as (Hw & m1 & m2 & body & Hh & Hm2 & Hc & Hr).
  apply build_message_headers_Ok in Hh as (rest & Hh & _ & Hlines & _).
  assert (get_header m2 "To" = Some (sent_key row)
          ∧ get_header m2 "Subject" = Some subject
          ∧ get_header m2 "From"
            = Some (SENDER_NAME w +:+ " <" +:+ str_of (SENDER_EMAIL w) +:+ ">"))
    as (HTo & HSubject & HFrom).
  { unfold get_header. by rewrite Hm2, Hh. }
  assert (PyStr.contains "010" subject = false) as Hlf.
  { unfold rendered_subject in Hsub.
    destruct (load_templates _ _ _) as [[[[? ?] ?] ?]|]; [|done].
    injection Hsub as <-. by apply contains_replace. }
  unfold build_message_recipients in Hr.
  assert (msg = m2 ∨ msg = del_header m2 "Bcc") as Hmsg.
  { destruct (row_truthy row "bcc"); injection Hr as -> _; auto. }
  assert (head recipients = Some (sent_key row)) as Hhead.
  { destruct (row_truthy row "bcc"), (row_truthy row "cc"); by injection Hr as _ ->. }
  split; [done|].
  destruct Hmsg as [-> | ->].
  - rewrite Hc. repeat split; done || by eexists.
  - rewrite !get_header_del_other by done. cbn [content del_header]. rewrite Hc.
    repeat split; done || by eexists.
Qed.



(** ** Templates *)

(** X10: the contract of [load_templates]. A missing subject file is
    reported first, then a missing body file, each with the exact path
    looked up; on success the subject and body are the texts read at those
    paths and the language is the normalised one; the HTML body is optional:
    it is absent when its file is missing or blank, and otherwise it is the
    trimmed, non-empty text of the file. *)
Theorem load_templates_contract (w : World) (lang : string) (row : Row) :
  let paths := load_templates_paths w lang row in
  let subj_path := paths.1.1.2 in
  let body_txt := paths.1.2 in
  let body_html := paths.2 in
  (isfile w subj_path = false →
   load_templates w lang row = Raise ("Missing subject template: " +:+ subj_path))
  ∧ (isfile w subj_path = true → isfile w body_txt = false →
     load_templates w lang row = Raise ("Missing body template: " +:+ body_txt))
  ∧ ∀ subject_text body_text html_text lang',
      load_templates w lang row = Ok (subject_text, body_text, html_text, lang') →
      read_text w subj_path = Ok subject_text
      ∧ read_text w body_txt = Ok body_text
      ∧ lang' = paths.1.1.1
      ∧ match html_text with
        | Some html =>
            isfile w body_html = true ∧ html ≠ "" ∧ PyStr.strip html = html
            ∧ ∃ raw, read_text w body_html = Ok raw ∧ html = PyStr.strip raw
        | None =>
            isfile w body_html = false
            ∨ ∃ raw, read_text w body_html = Ok raw ∧ PyStr.strip raw = ""
        end.
Proof.
  cbn zeta. unfold load_templates.
  destruct (load_templates_paths w lang row) as [[[l p1] p2] p3]. cbn [fst snd].
  split; [by intros ->|]. split; [by intros -> ->|].
  intros subject_text body_text html_text lang'.
  destruct (isfile w p1); [|done]. destruct (isfile w p2); [|done]. cbn [negb].
  destruct (read_text w p1) as [s1|]; [|done].
  destruct (read_text w p2) as [s2|]; [|done]. cbn [mbind Result_bind].
  destruct (isfile w p3).
  - destruct (read_text w p3) as [raw|]; [|done]. cbn.
    destruct (PyStr.truthy (PyStr.strip raw)) eqn:E; intros [= <- <- <- <-].
    + repeat split; try done.
      * by apply truthy_true_iff.
      * apply strip_idempotent.
      * by exists raw.
    + repeat split; try done. right. exists raw. split; [done|].
      by destruct (PyStr.strip raw).
  - cbn. intros [= <- <- <- <-]. repeat split; try done. by left.
Qed.

Lemma load_templates_contract_witness :
  let w := Demo.world Demo.env [] None Demo.accept in
  load_templates w "fr" ∅ = Raise "Missing subject template: templates/fr/subject.txt".
Proof.
  intros w.
  refine (proj1 (load_templates_contract w "fr" ∅) _).
  vm_compute. reflexivity.
Defined.

(** ** Substitution *)

Lemma string_app_assoc (s1 s2 s3 : string) : (s1 +:+ s2) +:+ s3 = s1 +:+ (s2 +:+ s3).
Proof. apply chars_inj. by rewrite !chars_app, app_assoc. Qed.

Lemma string_app_nil_r (s : string) : s +:+ "" = s.
Proof. apply chars_inj. by rewrite chars_app, app_nil_r. Qed.

Lemma string_rev_cons_app (c : ascii) (r s : string) :
  String.rev (String c r) +:+ s = String.rev r +:+ String c s.
Proof.
  apply chars_inj. rewrite !chars_app, !chars_rev. cbn. by rewrite <- app_assoc.
Qed.

Lemma ident_not_dollar (c : ascii) :
  PyTemplate.is_ident c = true → Ascii.eqb c "$" = false.
Proof.
  intros H. destruct (Ascii.eqb c "$") eqn:E; [|done].
  apply Ascii.eqb_eq in E as ->. by vm_compute in H.
Qed.

Lemma alpha_not_dollar (c : ascii) :
  PyTemplate.is_alpha_ c = true → Ascii.eqb c "$" = false.
Proof.
  intros H. destruct (Ascii.eqb c "$") eqn:E; [|done].
  apply Ascii.eqb_eq in E as ->. by vm_compute in H.
Qed.

(** With no key to substitute, the scanner gives back what it has read. *)
Lemma scan_empty_mapping (s : string) :
  ∀ m : PyTemplate.mode,
    no_double_dollar_from (match m with PyTemplate.Dollar => true | _ => false end) s
    = true →
    PyTemplate.scan ∅ m s = PyTemplate.flush ∅ m +:+ s.
Proof.
  induction s as [|c s IH]; intros m Hok.
  { cbn. by rewrite string_app_nil_r. }
  assert (Ascii.eqb c "$" = false →
          PyTemplate.scan ∅ PyTemplate.Text s = s) as HText.
  { intros Hc. rewrite (IH PyTemplate.Text); [done|]. cbn.
    destruct m; cbn in Hok; by rewrite Hc in Hok. }
  assert (∀ pre, m ≠ PyTemplate.Dollar →
            pre +:+ (if Ascii.eqb c "$" then PyTemplate.scan ∅ PyTemplate.Dollar s
                     else String c (PyTemplate.scan ∅ PyTemplate.Text s))
            = pre +:+ String c s) as Htext.
  { intros pre Hm. destruct (Ascii.eqb c "$") eqn:Hc.
    - apply Ascii.eqb_eq in Hc as ->.
      rewrite (IH PyTemplate.Dollar); [done|]. by destruct m.
    - by rewrite HText. }
  destruct m as [| |r| |r]; cbn [PyTemplate.scan].
  - exact (Htext "" ltac:(done)).
  - cbn in Hok. destruct (Ascii.eqb c "$") eqn:Hc; [done|].
    destruct (PyTemplate.is_alpha_ c).
    { rewrite (IH (PyTemplate.Named (String c ""))) by done.
      cbn [PyTemplate.flush]. unfold PyTemplate.subst_named. rewrite lookup_empty.
      by rewrite string_app_assoc. }
    destruct (Ascii.eqb c "{") eqn:Hb.
    { apply Ascii.eqb_eq in Hb as ->. by rewrite (IH PyTemplate.Brace). }
    by rewrite HText.
  - cbn in Hok. destruct (PyTemplate.is_ident c) eqn:Hi.
    + apply ident_not_dollar in Hi. rewrite Hi in Hok.
      rewrite (IH (PyTemplate.Named (String c r))) by done.
      cbn [PyTemplate.flush]. unfold PyTemplate.subst_named. rewrite !lookup_empty.
      by rewrite !string_app_assoc, string_rev_cons_app.
    + cbn [PyTemplate.flush]. by apply Htext.
  - cbn in Hok. destruct (PyTemplate.is_alpha_ c) eqn:Hi.
    + apply alpha_not_dollar in Hi. rewrite Hi in Hok.
      rewrite (IH (PyTemplate.Braced (String c ""))) by done.
      cbn [PyTemplate.flush]. by rewrite string_app_assoc.
    + by apply (Htext "${").
  - cbn in Hok. destruct (PyTemplate.is_ident c) eqn:Hi.
    + apply ident_not_dollar in Hi. rewrite Hi in Hok.
      rewrite (IH (PyTemplate.Braced (String c r))) by done.
      cbn [PyTemplate.flush]. by rewrite !string_app_assoc, string_rev_cons_app.
    + destruct (Ascii.eqb c "}") eqn:Hb.
      * apply Ascii.eqb_eq in Hb as ->. rewrite (IH PyTemplate.Text) by done.
        unfold PyTemplate.subst_braced. rewrite lookup_empty. cbn [PyTemplate.flush].
        by rewrite !string_app_assoc.
      * by apply Htext.
Qed.

(** X11: substitution is forgiving: rendered against a mapping without
    keys, a text in which no two "$" follow each other comes back unchanged,
    whatever placeholders, braces or stray "$" it holds. *)
Theorem render_leaves_unknown_placeholders (text : string) :
  no_double_dollar text = true → render text ∅ = text.
Proof.
  intros H. unfold render, PyTemplate.safe_substitute.
  by rewrite (scan_empty_mapping text PyTemplate.Text H).
Qed.

Lemma render_leaves_unknown_placeholders_witness :
  render "Dear $name, pay ${amount} $ to {x} by $1" ∅
  = "Dear $name, pay ${amount} $ to {x} by $1".
Proof.
  refine (render_leaves_unknown_placeholders _ _). vm_compute. reflexivity.
Defined.

(** ** Directory names of the previews *)

Lemma sub_unsafe_all_safe (in_run : bool) (name : string) :
  all_safe (sub_unsafe in_run name) = true.
Proof.
  revert in_run. induction name as [|c name IH]; intros in_run; [done|]. cbn.
  destruct (is_safe c) eqn:E; cbn; [by rewrite E, IH|].
  destruct in_run; cbn; by rewrite IH.
Qed.

Lemma sub_unsafe_id (name : string) :
  all_safe name = true → sub_unsafe false name = name.
Proof.
  induction name as [|c name IH]; [done|]. cbn.
  intros [-> H]%andb_true_iff. by rewrite IH.
Qed.

Lemma slice_to_all_safe (n : nat) (s : string) :
  all_safe s = true → all_safe (slice_to n s) = true.
Proof.
  revert s. induction n as [|n IH]; intros [|c s]; try done. cbn.
  intros [-> H]%andb_true_iff. by apply IH.
Qed.

Lemma slice_to_length (n : nat) (s : string) : (String.length (slice_to n s) ≤ n)%nat.
Proof.
  revert s. induction n as [|n IH]; intros [|c s]; cbn; try lia.
  specialize (IH s). lia.
Qed.

Lemma slice_to_id (n : nat) (s : string) :
  (String.length s ≤ n)%nat → slice_to n s = s.
Proof.
  revert s. induction n as [|n IH]; intros [|c s]; cbn; try done; try lia.
  intros H. rewrite IH; [done|lia].
Qed.

Lemma all_safe_no_slash (s : string) : all_safe s = true → PyStr.contains "/" s = false.
Proof.
  induction s as [|c s IH]; [done|]. cbn. intros [Hc H]%andb_true_iff.
  rewrite (IH H), orb_false_r. destruct (Ascii.eqb c "/") eqn:E; [|done].
  apply Ascii.eqb_eq in E as ->. by vm_compute in Hc.
Qed.

(** X12: [_sanitize] returns at most 120 characters, all of them letters,
    digits, "_", "." or "-", so never a path separator; and sanitising a
    sanitised name changes nothing. *)
Theorem sanitize_is_safe_and_idempotent (name : string) :
  (String.length (_sanitize name) ≤ 120)%nat
  ∧ all_safe (_sanitize name) = true
  ∧ PyStr.contains "/" (_sanitize name) = false
  ∧ _sanitize (_sanitize name) = _sanitize name.
Proof.
  assert (all_safe (_sanitize name) = true) as Hsafe.
  { apply slice_to_all_safe, sub_unsafe_all_safe. }
  assert (String.length (_sanitize name) ≤ 120)%nat as Hlen by apply slice_to_length.
  split; [done|]. split; [done|]. split; [by apply all_safe_no_slash|].
  unfold _sanitize at 1. by rewrite sub_unsafe_id, slice_to_id.
Qed.

Example sanitize_ex : _sanitize "jo hn+tag/../x" = "jo_hn_tag_.._x".
Proof. reflexivity. Qed.

(** ** Lists in a cell: patterns and addresses *)

Lemma split_cons_inv (sep c : ascii) (s : string) :
  PyStr.split sep (String c s)
  = if Ascii.eqb c sep then "" :: PyStr.split sep s
    else match PyStr.split sep s with
         | h :: t => String c h :: t
         | [] => [String c ""]
         end.
Proof. done. Qed.

Lemma split_not_nil (sep : ascii) (s : string) : PyStr.split sep s ≠ [].
Proof.
  induction s as [|c s IH]; [done|]. rewrite split_cons_inv.
  destruct (Ascii.eqb c sep); [done|]. by destruct (PyStr.split sep s).
Qed.

(** The parts of a split hold no separator, and no character that the
    whole does not hold. *)
Lemma split_parts (sep : ascii) (s p : string) :
  p ∈ PyStr.split sep s →
  PyStr.contains sep p = false
  ∧ ∀ c, PyStr.contains c p = true → PyStr.contains c s = true.
Proof.
  revert p. induction s as [|c s IH]; intros p.
  { intros ->%list_elem_of_singleton. done. }
  rewrite split_cons_inv. destruct (Ascii.eqb c sep) eqn:E.
  - intros [->|Hin]%elem_of_cons; [done|].
    destruct (IH p Hin) as [H1 H2]. split; [done|].
    intros d Hd. cbn. rewrite (H2 d Hd). apply orb_true_r.
  - destruct (PyStr.split sep s) as [|h t] eqn:Hs; [by destruct (split_not_nil sep s)|].
    intros [->|Hin]%elem_of_cons.
    + destruct (IH h ltac:(by left)) as [H1 H2]. split.
      * cbn. by rewrite E, H1.
      * intros d. cbn. destruct (Ascii.eqb c d); [done|]. cbn. apply H2.
    + destruct (IH p ltac:(by right)) as [H1 H2]. split; [done|].
      intros d Hd. cbn. rewrite (H2 d Hd). apply orb_true_r.
Qed.

(** X13: the entries of a pattern or address list are never empty, never
    carry surrounding whitespace and never hold a comma or a semicolon. *)
Theorem list_entries_are_clean (field entry : string) :
  entry ∈ split_list field →
  entry ≠ ""
  ∧ PyStr.strip entry = entry
  ∧ PyStr.contains "," entry = false
  ∧ PyStr.contains ";" entry = false.
Proof.
  unfold split_list. intros (part & Hin & Hf)%list_elem_of_omap.
  destruct (PyStr.truthy (PyStr.strip part)) eqn:Ht; [|done]. injection Hf as <-.
  destruct (split_parts _ _ _ Hin) as [Hsep Hsub].
  split; [by apply truthy_true_iff|]. split; [apply strip_idempotent|].
  split.
  - destruct (PyStr.contains "," (PyStr.strip part)) eqn:E; [|done].
    apply contains_strip in E. congruence.
  - destruct (PyStr.contains ";" (PyStr.strip part)) eqn:E; [|done].
    apply contains_strip, Hsub in E.
    by rewrite contains_replace in E.
Qed.

Lemma list_entries_are_clean_witness :
  "h2@x.com" ≠ ""
  ∧ PyStr.strip "h2@x.com" = "h2@x.com"
  ∧ PyStr.contains "," "h2@x.com" = false
  ∧ PyStr.contains ";" "h2@x.com" = false.
Proof.
  refine (list_entries_are_clean " h1@x.com; ;h2@x.com," "h2@x.com" _).
  vm_compute. set_solver.
Defined.

Lemma split_only_separators (s : string) :
  only_separators s = true →
  Forall (λ p, is_blank p = true) (PyStr.split "," (PyStr.replace ";" "," s)).
Proof.
  induction s as [|c s IH]; [by repeat constructor|].
  cbn [only_separators PyStr.replace]. intros [Hc Hs]%andb_true_iff.
  specialize (IH Hs). rewrite split_cons_inv.
  destruct (Ascii.eqb c ";") eqn:E1; [by constructor|].
  destruct (Ascii.eqb c ",") eqn:E2; [by constructor|].
  rewrite !orb_false_r in Hc.
  destruct (PyStr.split _ _) as [|h t]; [by repeat constructor; cbn; rewrite Hc|].
  apply Forall_cons in IH as [Hh Ht]. constructor; [|done]. cbn. by rewrite Hc, Hh.
Qed.

(** X14: a cell that holds only blanks, commas and semicolons names
    nothing: [expand_attachments] returns no file and logs no warning, and
    as a cc or bcc field it adds no recipient. *)
Theorem blank_cell_names_nothing (w : World) (value : string) :
  only_separators value = true →
  expand_attachments w value = ([], Ok []) ∧ address_list value = [].
Proof.
  intros H%split_only_separators.
  assert (split_list value = []) as Hnil.
  { unfold split_list. induction H as [|p ps Hp _ IH]; [done|]. cbn.
    by rewrite (strip_blank _ Hp). }
  split; [|done].
  rewrite expand_attachments_eq. unfold pattern_warnings, pattern_matches.
  by rewrite Hnil.
Qed.

Lemma blank_cell_names_nothing_witness :
  expand_attachments (Demo.shelf Demo.env) " ; ,, " = ([], Ok [])
  ∧ address_list " ; ,, " = [].
Proof.
  refine (blank_cell_names_nothing (Demo.shelf Demo.env) " ; ,, " _). reflexivity.
Defined.

(** ** What reaches the transport *)








(** ** No row aborts the batch *)

(** X16: without a limit, a run enters every row of the contacts, in
    order: whatever composition or the transport raises for a row, the rows
    after it are still processed. *)
Theorem every_row_is_entered (w : World) (resend : bool)
    (rows : list Row) (run : BatchRun) :
  contacts_csv w = Ok rows →
  send_batch w resend None = Ok run →
  length (trace run) = length rows
  ∧ ∀ i row, rows !! i = Some row →
      ∃ st, trace run !! i
            = Some (process_row w (already_sent_of (read_sent_index (sent_csv w)))
                      resend None st row).1.2.
Proof.
  intros Hc (rows' & Hc' & Htr & _)%send_batch_inv. cbn zeta in *.
  rewrite Hc in Hc'. injection Hc' as <-.
  assert (length (trace run) = length rows) as Hlen
    by (by rewrite Htr, send_loop_no_limit).
  split; [done|]. intros i row Hi.
  destruct (lookup_lt_is_Some_2 (trace run) i) as [evs Hevs].
  { rewrite Hlen. by eapply lookup_lt_Some. }
  rewrite Hevs. rewrite Htr in Hevs.
  apply send_loop_lookup in Hevs as (st & row' & Hi' & ->).
  rewrite Hi in Hi'. injection Hi' as <-. by exists st.
Qed.

Lemma every_row_is_entered_witness :
  let rows := [Demo.eve; Demo.bad; Demo.ana] in
  let w := Demo.world Demo.env rows None Demo.refuse in
  let run := Demo.run_of (send_batch w false None) in
  length (trace run) = 3%nat.
Proof.
  intros rows w run.
  refine (proj1 (every_row_is_entered w false rows run _ _)).
  - reflexivity.
  - vm_compute. reflexivity.
Defined.

(** ** More on the index and on the attachments *)

(** X17: the keys of the rebuilt index are trimmed emails, and each key
    maps to a row of the ledger file whose trimmed email is that key. *)
Theorem index_keys_are_trimmed (file : option (list Row)) (email : string) (rec : Row) :
  read_sent_index file !! email = Some rec →
  PyStr.strip email = email
  ∧ sent_key rec = email
  ∧ rec ∈ default [] file.
Proof.
  rewrite read_sent_index_lookup. intros Hlast.
  assert (rec ∈ filter (λ r, sent_key r = email) (default [] file)) as Hin.
  { destruct (filter _ _) as [|r l] using rev_ind; [done|].
    rewrite last_snoc in Hlast. injection Hlast as ->.
    apply elem_of_app. right. by apply list_elem_of_singleton. }
  apply list_elem_of_filter in Hin as [Hkey Hin].
  split; [|done]. rewrite <- Hkey. apply strip_idempotent.
Qed.

Lemma index_keys_are_trimmed_witness :
  let rec := Demo.event " a@x.com " "failed" in
  PyStr.strip "a@x.com" = "a@x.com"
  ∧ sent_key rec = "a@x.com"
  ∧ rec ∈ [Demo.event "a@x.com" "success"; rec].
Proof.
  intros rec.
  refine (index_keys_are_trimmed (Some [Demo.event "a@x.com" "success"; rec])
            "a@x.com" rec _).
  vm_compute. reflexivity.
Defined.

(** The loop of lines 100-105 keeps a list without repetition as it is. *)
Lemma uniq_loop_NoDup (files : list string) :
  ∀ (acc : list string) (seen : gset string),
    (∀ x, x ∈ seen ↔ x ∈ acc) →
    NoDup files → (∀ x, x ∈ files → x ∉ acc) →
    uniq_loop acc seen files = acc ++ files.
Proof.
  induction files as [|f files IH]; intros acc seen Hseen Hnd Hdis.
  { cbn. by rewrite app_nil_r. }
  apply NoDup_cons in Hnd as [Hf Hnd]. cbn.
  rewrite bool_decide_eq_false_2.
  2: { rewrite Hseen. apply Hdis. by left. }
  rewrite (IH (acc ++ [f]) ({[f]} ∪ seen)); [by rewrite <- app_assoc| |done|].
  - intros x. rewrite elem_of_union, elem_of_singleton, elem_of_app, Hseen.
    rewrite list_elem_of_singleton. tauto.
  - intros x Hx [Hacc|Hxf]%elem_of_app.
    + by apply (Hdis x); [right|].
    + apply list_elem_of_singleton in Hxf as ->. done.
Qed.

(** X18: when no path occurs twice among the matches of the patterns,
    [expand_attachments] returns exactly those matches, in that order. *)
Theorem expand_attachments_keeps_distinct_matches (w : World) (value : string) :
  NoDup (pattern_matches w value) →
  expand_attachments w value = (pattern_warnings w value, Ok (pattern_matches w value)).
Proof.
  intros Hnd. rewrite expand_attachments_eq.
  rewrite (uniq_loop_NoDup _ [] ∅); [done| |done|].
  - intros x. split; [by intros ?%elem_of_empty|by intros ?%elem_of_nil].
  - intros x _ ?%elem_of_nil. done.
Qed.

Lemma expand_attachments_keeps_distinct_matches_witness :
  expand_attachments (Demo.shelf Demo.env) "./a.txt; attachments/en/*"
  = ([], Ok ["./a.txt"; "attachments/en/terms.pdf"]).
Proof.
  refine (expand_attachments_keeps_distinct_matches (Demo.shelf Demo.env)
            "./a.txt; attachments/en/*" _).
  apply (bool_decide_unpack _). vm_compute. exact I.
Defined.

(** ** Subjects in the ledger *)

Lemma sent_record_subject time row subject status error :
  row_get (sent_record time row subject status error) "subject" = Some subject.
Proof. unfold row_get, sent_record. by simplify_map_eq. Qed.

(** The subject of a record written by one turn is empty or the subject
    that a successful composition of the row returned. *)
Lemma process_row_record_subject w already_sent resend limit st row rec :
  rec ∈ appended (process_row w already_sent resend limit st row).1.2 →
  ∃ subject, row_get rec "subject" = Some subject
    ∧ (subject = ""
       ∨ ∃ logs msg recipients,
           build_message w row = (logs, Ok (msg, subject, recipients))).
Proof.
  destruct (decide (dispatched already_sent resend row)) as [Hd|Hn].
  2: { apply (process_row_not_dispatched w already_sent resend limit st) in Hn.
       destruct Hn as (_ & _ & _ & _ & ->). by intros ?%elem_of_nil. }
  destruct (build_message w row) as [logs [[[msg subject] recipients]|e]] eqn:Hb.
  2: { rewrite (process_row_build_fails _ _ _ _ _ _ _ _ Hd Hb). cbn [fst snd].
       change (BuildMessage row :: ?x) with ([BuildMessage row] ++ x).
       rewrite !appended_app, appended_logged. cbn.
       intros ->%list_elem_of_singleton. rewrite sent_record_subject. eauto. }
  destruct (smtp_send_message w (calls st) msg (SENDER_EMAIL w) recipients)
    as [u|e] eqn:Hs.
  - rewrite (process_row_sent _ _ _ _ _ _ _ _ _ _ _ Hd Hb Hs). cbn [fst snd].
    change (BuildMessage row :: ?x) with ([BuildMessage row] ++ x).
    rewrite !appended_app, appended_logged.
    assert (∀ b text, appended (if b : bool then [Logged INFO text] else []) = []) as ->
      by (by intros []).
    cbn. intros ->%list_elem_of_singleton. rewrite sent_record_subject. eauto 10.
  - rewrite (process_row_send_fails _ _ _ _ _ _ _ _ _ _ _ Hd Hb Hs). cbn [fst snd].
    change (BuildMessage row :: ?x) with ([BuildMessage row] ++ x).
    rewrite !appended_app, appended_logged. cbn.
    intros ->%list_elem_of_singleton. rewrite sent_record_subject. eauto 10.
Qed.

(** X19: every record that a run appends to the ledger has a subject, and
    that subject is a single line: it holds no LF, and [splitlines] does
    not cut it in two. *)
Theorem ledger_subjects_are_single_line (w : World) (resend : bool)
    (limit : option Z) (run : BatchRun) (rec : Row) :
  send_batch w resend limit = Ok run →
  rec ∈ appended_by (trace run) →
  ∃ subject, row_get rec "subject" = Some subject
    ∧ PyStr.contains "010" subject = false
    ∧ (length (PyStr.splitlines subject) ≤ 1)%nat.
Proof.
  intros (rows & _ & Htr & _)%send_batch_inv. cbn zeta in *.
  intros (recs & Hrecs & Hin)%list_elem_of_In%in_concat.
  apply list_elem_of_In in Hrecs, Hin.
  apply list_elem_of_fmap in Hrecs as (evs & -> & Hevs).
  apply list_elem_of_lookup in Hevs as [i Hi]. rewrite Htr in Hi.
  apply send_loop_lookup in Hi as (st & row & _ & ->).
  apply process_row_record_subject in Hin as (subject & Hsub & [->|Hb]).
  { exists "". split; [done|]. split; [done|]. cbn. lia. }
  destruct Hb as (logs & msg & recipients & Hb).
  destruct (build_message_Ok_spec _ _ _ _ _ _ Hb) as (_ & _ & _ & _ & _ & Hl & Hlf & _).
  by exists subject.
Qed.

Lemma ledger_subjects_are_single_line_witness :
  let w := Demo.world Demo.env [Demo.ana] None Demo.accept in
  let run := Demo.run_of (send_batch w false None) in
  let rec := sent_record "2025-09-13T19:00:00" Demo.ana "Hello Ana" "success" "" in
  ∃ subject, row_get rec "subject" = Some subject
    ∧ PyStr.contains "010" subject = false
    ∧ (length (PyStr.splitlines subject) ≤ 1)%nat.
Proof.
  intros w run rec.
  refine (ledger_subjects_are_single_line w false None run rec _ _).
  - vm_compute. reflexivity.
  - vm_compute. left.
Defined.
